(** * CxxLazy: run-once action, lazy value cell and the Lazy adapters

    A shallow embedding of [components/once_call.h], [components/once_call.cpp]
    and [components/lazy.h].

    The embedding follows one thread of execution.  Every member function is
    a function from the object it is called on and the environment its
    initializer captures to an outcome: a normal return, a thrown exception,
    or undefined behaviour (dereferencing an empty [std::optional], locking a
    [std::mutex] the thread already holds).  The C++ memory orders on the
    atomic flag are not represented: within one thread every load sees the
    latest store.  A reference [T&] or pointer [T*] into the slot is
    represented by the value it refers to at the time it is obtained. *)

(** Module [Threads] refines [get_or_init] and [reset] of the cell into
    their single steps and interleaves several threads over one cell; the
    races, and what [reset] does to them, are stated there. *)

From Stdlib Require Import List ZArith Lia Bool.
Import ListNotations.

(** ** The tri-state flag

    [enum class State { Uninitialized, Initializing, Initialized }], declared
    identically in [OnceCall] and in [OnceCell<T>]. *)
Inductive State : Type :=
| Uninitialized
| Initializing
| Initialized.

Definition State_eqb (a b : State) : bool :=
  match a, b with
  | Uninitialized, Uninitialized => true
  | Initializing, Initializing => true
  | Initialized, Initialized => true
  | _, _ => false
  end.

(** A [T*] obtained from the slot: either [nullptr] or the address of the
    stored value, which is modelled by the value it points to. *)
Inductive Pointer (T : Type) : Type :=
| nullptr
| address_of (v : T).
Arguments nullptr {T}.
Arguments address_of {T} v.

(** ** Outcomes, initializers and the execution monad *)

Section Exec.
(** [W] is the environment the initializers read and write (the variables a
    lambda captures by reference); [E] is the type of exceptions. *)
Context {W E : Type}.

(** What a call of a [std::function<A()>] does: it may update the
    environment, and it returns a value or throws. *)
Inductive Result (A : Type) : Type :=
| Returned (a : A)
| Thrown (e : E).
Arguments Returned {A} a.
Arguments Thrown {A} e.

Definition InitFn (A : Type) : Type := W -> Result A * W.

(** Ghost record of a call: every invocation of an initializer, with
    whether it returned, and a snapshot of the object after every write
    to one of its members. *)
Inductive Event (O : Type) : Type :=
| Invoked (succeeded : bool)
| Wrote (o : O).
Arguments Invoked {O} succeeded.
Arguments Wrote {O} o.

Inductive Outcome (O A : Type) : Type :=
| Ok (a : A) (o : O) (w : W) (tr : list (Event O))
| Throw (e : E) (o : O) (w : W) (tr : list (Event O))
| Undefined.
Arguments Ok {O A} a o w tr.
Arguments Throw {O A} e o w tr.
Arguments Undefined {O A}.

Definition M (O A : Type) : Type := O -> W -> Outcome O A.

Definition ret {O A} (a : A) : M O A := fun o w => Ok a o w [].

Definition throw {O A} (e : E) : M O A := fun o w => Throw e o w [].

Definition undefined {O A} : M O A := fun _ _ => Undefined.

(** The events of a continuation come after those already recorded. *)
Definition after {O A} (tr : list (Event O)) (r : Outcome O A) : Outcome O A :=
  match r with
  | Ok a o w tr' => Ok a o w (tr ++ tr')
  | Throw e o w tr' => Throw e o w (tr ++ tr')
  | Undefined => Undefined
  end.

Definition bind {O A B} (m : M O A) (f : A -> M O B) : M O B :=
  fun o w =>
    match m o w with
    | Ok a o1 w1 tr => after tr (f a o1 w1)
    | Throw e o1 w1 tr => Throw e o1 w1 tr
    | Undefined => Undefined
    end.

(** [try { m } catch (...) { h }] *)
Definition try_catch {O A} (m : M O A) (h : E -> M O A) : M O A :=
  fun o w =>
    match m o w with
    | Throw e o1 w1 tr => after tr (h e o1 w1)
    | r => r
    end.

(** [m] followed by [fin] on every way out of [m]: the destructor of a
    scoped object. *)
Definition finally {O A} (m : M O A) (fin : M O unit) : M O A :=
  fun o w =>
    match m o w with
    | Ok a o1 w1 tr => after tr (bind fin (fun _ => ret a) o1 w1)
    | Throw e o1 w1 tr => after tr (bind fin (fun _ => throw e) o1 w1)
    | Undefined => Undefined
    end.

(** Reading and writing the object; a write leaves a snapshot. *)
Definition read {O A} (f : O -> A) : M O A := fun o w => Ok (f o) o w [].

Definition write {O} (f : O -> O) : M O unit :=
  fun o w => Ok tt (f o) w [Wrote (f o)].

(** [std::forward<Fn>(fn)()] *)
Definition invoke {O A} (fn : InitFn A) : M O A :=
  fun o w =>
    match fn w with
    | (Returned a, w') => Ok a o w' [Invoked true]
    | (Thrown e, w') => Throw e o w' [Invoked false]
    end.

(** Running a member function of a sub-object [P] of [O]. *)
Definition lift_event {O P} (put : P -> O) (ev : Event P) : Event O :=
  match ev with
  | Invoked b => Invoked b
  | Wrote p => Wrote (put p)
  end.

Definition on_member {O P A} (get : O -> P) (set : P -> O -> O) (m : M P A) : M O A :=
  fun o w =>
    match m (get o) w with
    | Ok a p w' tr => Ok a (set p o) w' (map (lift_event (fun q => set q o)) tr)
    | Throw e p w' tr => Throw e (set p o) w' (map (lift_event (fun q => set q o)) tr)
    | Undefined => Undefined
    end.

(** The events of a trace that are successful invocations. *)
Definition is_success {O} (ev : Event O) : bool :=
  match ev with
  | Invoked true => true
  | _ => false
  end.

Definition is_invocation {O} (ev : Event O) : bool :=
  match ev with
  | Invoked _ => true
  | Wrote _ => false
  end.

Definition successes {O} (tr : list (Event O)) : nat :=
  length (filter is_success tr).

Definition invocations {O} (tr : list (Event O)) : list (Event O) :=
  filter is_invocation tr.

(** The snapshots of a trace, in program order. *)
Fixpoint snapshots {O} (tr : list (Event O)) : list O :=
  match tr with
  | [] => []
  | Wrote o :: tr' => o :: snapshots tr'
  | Invoked _ :: tr' => snapshots tr'
  end.

(** A caller that performs the operations [ops] one after the other on the
    same object, catching whatever an operation throws and carrying on.
    [None] when an operation has undefined behaviour. *)
Fixpoint run {O} (ops : list (M O unit)) (o : O) (w : W)
  : option (O * W * list (Event O)) :=
  match ops with
  | [] => Some (o, w, [])
  | op :: rest =>
      match op o w with
      | Ok _ o1 w1 tr | Throw _ o1 w1 tr =>
          match run rest o1 w1 with
          | Some (o2, w2, tr') => Some (o2, w2, tr ++ tr')
          | None => None
          end
      | Undefined => None
      end
  end.

(** The outcome [r] of an operation started in environment [w] is that of
    exactly one invocation of [fn]: the operation returns [f v] when [fn]
    returns [v], throws what [fn] throws, leaves the environment as [fn]
    left it, and its trace holds that one invocation and no other. *)
Definition invoked_once {O A B} (f : A -> B) (fn : InitFn A) (w : W)
    (r : Outcome O B) : Prop :=
  match fn w, r with
  | (Returned v, w'), Ok b _ w'' tr =>
      b = f v /\ w'' = w' /\ invocations tr = [Invoked true]
  | (Thrown e, w'), Throw e' _ w'' tr =>
      e' = e /\ w'' = w' /\ invocations tr = [Invoked false]
  | _, _ => False
  end.
End Exec.

Arguments Returned {E A} a.
Arguments Thrown {E A} e.
Arguments Invoked {O} succeeded.
Arguments Wrote {O} o.
Arguments Ok {W E O A} a o w tr.
Arguments Throw {W E O A} e o w tr.
Arguments Undefined {W E O A}.

Declare Scope exec_scope.
Delimit Scope exec_scope with exec.
Notation "x <- m ;; k" := (bind m (fun x => k))
  (at level 61, m at next level, right associativity) : exec_scope.
Notation "m ;; k" := (bind m (fun _ => k))
  (at level 61, right associativity) : exec_scope.
Open Scope exec_scope.

(** ** OnceCall: the run-once action *)

Module OnceCall.

(** The data members [state_] and [mtx_]; the mutex is represented by
    whether it is held. *)
Record t : Type := mk { state_ : State; mtx_ : bool }.

Section Members.
Context {W E : Type}.

(** [OnceCall::OnceCall() : state_(State::Uninitialized)] *)
Definition ctor : t := {| state_ := Uninitialized; mtx_ := false |}.

(** [state_.load(...)] and [state_.store(s, ...)] *)
Definition load_state : @M W E t State := read state_.

Definition store_state (s : State) : @M W E t unit :=
  write (fun o => {| state_ := s; mtx_ := mtx_ o |}).

Definition lock : @M W E t unit :=
  held <- read mtx_ ;;
  if held then undefined
  else write (fun o => {| state_ := state_ o; mtx_ := true |}).

Definition unlock : @M W E t unit :=
  write (fun o => {| state_ := state_ o; mtx_ := false |}).

(** [std::unique_lock] / [std::lock_guard] over [mtx_] for the rest of
    the enclosing block. *)
Definition scoped_lock {A} (body : @M W E t A) : @M W E t A :=
  lock ;; finally body unlock.

(** [template <typename Fn> void OnceCall::call(Fn&& fn)] *)
Definition call (fn : @InitFn W E unit) : @M W E t unit :=
  s <- load_state ;;
  if State_eqb s Initialized then ret tt
  else
    scoped_lock (
      s <- load_state ;;
      if State_eqb s Initialized then ret tt
      else
        store_state Initializing ;;
        try_catch
          (invoke fn ;;
           store_state Initialized)
          (fun e =>
             store_state Uninitialized ;;
             throw e)).

(** [void reset()] *)
Definition reset : @M W E t unit :=
  scoped_lock (store_state Uninitialized).

(** [bool OnceCall::is_initialized() const] *)
Definition is_initialized : @M W E t bool :=
  s <- load_state ;;
  ret (State_eqb s Initialized).

End Members.
End OnceCall.

(** ** OnceCell<T>: the lazy value cell *)

Module OnceCell.

(** The data members [value_] (a [std::optional<T>]), [state_] and [mtx_]. *)
Record t (T : Type) : Type :=
  mk { value_ : option T; state_ : State; mtx_ : bool }.
Arguments mk {T} value_ state_ mtx_.
Arguments value_ {T} c : rename.
Arguments state_ {T} c : rename.
Arguments mtx_ {T} c : rename.

Section Members.
Context {W E T : Type}.

(** [OnceCell<T>::OnceCell() : state_(State::Uninitialized)]; the slot is
    default-constructed, that is, empty. *)
Definition ctor : t T :=
  {| value_ := None; state_ := Uninitialized; mtx_ := false |}.

Definition load_state : @M W E (t T) State := read state_.

Definition store_state (s : State) : @M W E (t T) unit :=
  write (fun c => {| value_ := value_ c; state_ := s; mtx_ := mtx_ c |}).

Definition lock : @M W E (t T) unit :=
  held <- read mtx_ ;;
  if held then undefined
  else write (fun c => {| value_ := value_ c; state_ := state_ c; mtx_ := true |}).

Definition unlock : @M W E (t T) unit :=
  write (fun c => {| value_ := value_ c; state_ := state_ c; mtx_ := false |}).

Definition scoped_lock {A} (body : @M W E (t T) A) : @M W E (t T) A :=
  lock ;; finally body unlock.

(** [*value_]: undefined behaviour on an empty optional. *)
Definition deref_value : @M W E (t T) T :=
  slot <- read value_ ;;
  match slot with
  | Some v => ret v
  | None => undefined
  end.

(** [value_.emplace(v)] and [value_.reset()].  The argument of [emplace]
    is the value the initializer returned; a constructor of [T] that throws
    while the slot is being filled is not represented. *)
Definition emplace (v : T) : @M W E (t T) unit :=
  write (fun c => {| value_ := Some v; state_ := state_ c; mtx_ := mtx_ c |}).

Definition reset_value : @M W E (t T) unit :=
  write (fun c => {| value_ := None; state_ := state_ c; mtx_ := mtx_ c |}).

(** [template <typename Fn> T& OnceCell<T>::get_or_init(Fn&& fn)] *)
Definition get_or_init (fn : @InitFn W E T) : @M W E (t T) T :=
  s <- load_state ;;
  if State_eqb s Initialized then deref_value
  else
    scoped_lock (
      s <- load_state ;;
      if State_eqb s Initialized then deref_value
      else
        store_state Initializing ;;
        try_catch
          (v <- invoke fn ;;
           emplace v ;;
           store_state Initialized ;;
           deref_value)
          (fun e =>
             store_state Uninitialized ;;
             throw e)).

(** [bool OnceCell<T>::is_initialized() const] *)
Definition is_initialized : @M W E (t T) bool :=
  s <- load_state ;;
  ret (State_eqb s Initialized).

(** [T* OnceCell<T>::get()] *)
Definition get : @M W E (t T) (Pointer T) :=
  s <- load_state ;;
  if State_eqb s Initialized then
    v <- deref_value ;;
    ret (address_of v)
  else ret nullptr.

(** [const T* OnceCell<T>::try_get() const] *)
Definition try_get : @M W E (t T) (Pointer T) :=
  s <- load_state ;;
  if State_eqb s Initialized then
    v <- deref_value ;;
    ret (address_of v)
  else ret nullptr.

(** [void OnceCell<T>::reset()] *)
Definition reset : @M W E (t T) unit :=
  scoped_lock (
    reset_value ;;
    store_state Uninitialized).

(** [T& operator*()], [const T& operator*() const],
    [T* operator->()] and [const T* operator->() const] *)
Definition operator_star : @M W E (t T) T := deref_value.

Definition operator_star_const : @M W E (t T) T := deref_value.

Definition operator_arrow : @M W E (t T) (Pointer T) :=
  v <- deref_value ;;
  ret (address_of v).

Definition operator_arrow_const : @M W E (t T) (Pointer T) :=
  v <- deref_value ;;
  ret (address_of v).

(** The class invariant between two member calls: nobody holds the mutex,
    and the slot holds a value exactly when the flag says [Initialized]. *)
Definition slot_matches_state (c : t T) : Prop :=
  value_ c <> None <-> state_ c = Initialized.

Definition quiescent (c : t T) : Prop :=
  mtx_ c = false /\ slot_matches_state c.

(** The member functions a client may call in any order without a
    precondition. *)
Inductive Op : Type :=
| OpGetOrInit (fn : @InitFn W E T)
| OpGet
| OpTryGet
| OpIsInitialized
| OpReset.

Definition discard {A} (m : @M W E (t T) A) : @M W E (t T) unit :=
  m ;; ret tt.

Definition perform (op : Op) : @M W E (t T) unit :=
  match op with
  | OpGetOrInit fn => discard (get_or_init fn)
  | OpGet => discard get
  | OpTryGet => discard try_get
  | OpIsInitialized => discard is_initialized
  | OpReset => reset
  end.

End Members.
Arguments Op : clear implicits.
End OnceCell.

(** ** Lazy<T>: the lazy value adapter *)

Module Lazy.

(** The data members [cell_] and [init_fn_]. *)
Record t (W E T : Type) : Type :=
  mk { cell_ : OnceCell.t T; init_fn_ : @InitFn W E T }.
Arguments mk {W E T} cell_ init_fn_.
Arguments cell_ {W E T} l : rename.
Arguments init_fn_ {W E T} l : rename.

Section Members.
Context {W E T : Type}.

(** [Lazy<T>::Lazy(InitFn init_fn) : init_fn_(std::move(init_fn)) {}] *)
Definition ctor (init_fn : @InitFn W E T) : t W E T :=
  {| cell_ := OnceCell.ctor; init_fn_ := init_fn |}.

(** A member call [cell_.m(...)]. *)
Definition on_cell {A} (m : @M W E (OnceCell.t T) A) : @M W E (t W E T) A :=
  on_member cell_ (fun c l => {| cell_ := c; init_fn_ := init_fn_ l |}) m.

(** [T& Lazy<T>::get()] *)
Definition get : @M W E (t W E T) T :=
  fn <- read init_fn_ ;;
  on_cell (OnceCell.get_or_init fn).

(** [T& Lazy<T>::operator*()] and [T* Lazy<T>::operator->()] *)
Definition operator_star : @M W E (t W E T) T := get.

Definition operator_arrow : @M W E (t W E T) (Pointer T) :=
  v <- get ;;
  ret (address_of v).

(** [bool Lazy<T>::is_initialized() const] *)
Definition is_initialized : @M W E (t W E T) bool :=
  on_cell OnceCell.is_initialized.

(** [const T* Lazy<T>::try_get() const] has no embedding.  Its body is
    [return cell_.get();]: inside a [const] member [cell_] is a
    [const OnceCell<T>], and [OnceCell<T>::get()] is declared without
    [const] and has no [const] overload, so the call is ill-formed wherever
    the member is instantiated.  No program can call it, and it has no
    behaviour to give a value to.  ([OnceCell<T>::try_get() const] is what a
    [const] member could call.) *)

(** [void Lazy<T>::reset()] *)
Definition reset : @M W E (t W E T) unit :=
  on_cell OnceCell.reset.

(** [explicit operator bool() const] *)
Definition operator_bool : @M W E (t W E T) bool := is_initialized.

(** The member functions a program can call other than the accesses
    [get], [operator*] and [operator->]. *)
Inductive Other : Type :=
| OtherIsInitialized
| OtherReset
| OtherBool.

Definition perform_other (op : Other) : @M W E (t W E T) unit :=
  match op with
  | OtherIsInitialized => is_initialized ;; ret tt
  | OtherReset => reset
  | OtherBool => operator_bool ;; ret tt
  end.

End Members.
End Lazy.

(** ** Lazy<void>: the lazy action adapter *)

Module LazyVoid.

(** The data members [once_] and [init_fn_]. *)
Record t (W E : Type) : Type :=
  mk { once_ : OnceCall.t; init_fn_ : @InitFn W E unit }.
Arguments mk {W E} once_ init_fn_.
Arguments once_ {W E} l : rename.
Arguments init_fn_ {W E} l : rename.

Section Members.
Context {W E : Type}.

(** [explicit Lazy(InitFn init_fn) : init_fn_(std::move(init_fn)) {}] *)
Definition ctor (init_fn : @InitFn W E unit) : t W E :=
  {| once_ := OnceCall.ctor; init_fn_ := init_fn |}.

(** A member call [once_.m(...)]. *)
Definition on_once {A} (m : @M W E OnceCall.t A) : @M W E (t W E) A :=
  on_member once_ (fun o l => {| once_ := o; init_fn_ := init_fn_ l |}) m.

(** [void get()] *)
Definition get : @M W E (t W E) unit :=
  fn <- read init_fn_ ;;
  on_once (OnceCall.call fn).

(** [bool is_initialized() const] *)
Definition is_initialized : @M W E (t W E) bool :=
  on_once OnceCall.is_initialized.

(** [explicit operator bool() const] *)
Definition operator_bool : @M W E (t W E) bool := is_initialized.

(** [void reset()] *)
Definition reset : @M W E (t W E) unit :=
  on_once OnceCall.reset.

(** The member functions other than the access [get]. *)
Inductive Other : Type :=
| OtherIsInitialized
| OtherReset
| OtherBool.

Definition perform_other (op : Other) : @M W E (t W E) unit :=
  match op with
  | OtherIsInitialized => is_initialized ;; ret tt
  | OtherReset => reset
  | OtherBool => operator_bool ;; ret tt
  end.

End Members.
End LazyVoid.

(** ** The scenarios of the test programs *)

Module Scenarios.

(** [test_once_call]: [int counter = 0;] and the initializer [counter++],
    called twice on one [OnceCall].  The environment is the counter. *)
Definition init_fn {E : Type} : @InitFn Z E unit :=
  fun counter => (Returned tt, (counter + 1)%Z).

Definition test_once_call {E : Type} : option (OnceCall.t * Z * list (Event OnceCall.t)) :=
  run [OnceCall.call (@init_fn E); OnceCall.call (@init_fn E)] OnceCall.ctor 0%Z.

(** [test_lazy_static_void]: [LAZY_STATIC_VOID(lazy_void, side_effect_counter++)]
    and two calls of [lazy_void.get()]. *)
Definition lazy_void {E : Type} : LazyVoid.t Z E := LazyVoid.ctor init_fn.

Definition test_lazy_static_void {E : Type} : option (LazyVoid.t Z E * Z * list (Event (LazyVoid.t Z E))) :=
  run [LazyVoid.get; LazyVoid.get] lazy_void 0%Z.

End Scenarios.

(** ** Callers of the primitives *)

Module Caller.
Section Caller.
Context {W E : Type}.

(** The member functions of [OnceCall], for a caller that uses them in any
    order. *)
Inductive CallOp : Type :=
| DoCall (fn : @InitFn W E unit)
| DoReset
| DoIsInitialized.

Definition perform_call_op (op : CallOp) : @M W E OnceCall.t unit :=
  match op with
  | DoCall fn => OnceCall.call fn
  | DoReset => OnceCall.reset
  | DoIsInitialized => OnceCall.is_initialized ;; ret tt
  end.

(** Reference behaviour of a caller that tries the initializers [fns] in
    turn, each in the environment the previous one left, and stops at the
    first that returns: one flag per invocation made, the value of the one
    that returned if any, and the environment at the end. *)
Fixpoint first_success {A : Type} (fns : list (@InitFn W E A)) (w : W)
  : list bool * option A * W :=
  match fns with
  | [] => ([], None, w)
  | fn :: rest =>
      match fn w with
      | (Returned a, w') => ([true], Some a, w')
      | (Thrown _, w') =>
          let '(flags, r, w'') := first_success rest w' in
          (false :: flags, r, w'')
      end
  end.

(** The accesses of [Lazy<T>]: [x.get()], [*x] and [x->]. *)
Inductive Access : Type :=
| AccessGet
| AccessStar
| AccessArrow.

Definition perform_access {T : Type} (a : Access) : @M W E (Lazy.t W E T) unit :=
  match a with
  | AccessGet => Lazy.get ;; ret tt
  | AccessStar => Lazy.operator_star ;; ret tt
  | AccessArrow => Lazy.operator_arrow ;; ret tt
  end.



(** The events an operation left. *)
Definition events {O A : Type} (r : @Outcome W E O A) : list (Event O) :=
  match r with
  | Ok _ _ _ tr | Throw _ _ _ tr => tr
  | Undefined => []
  end.

(** The number of [reset()]s in a sequence of operations. *)
Definition is_call_reset (op : CallOp) : bool :=
  match op with
  | DoReset => true
  | _ => false
  end.

Definition is_cell_reset {T : Type} (op : OnceCell.Op W E T) : bool :=
  match op with
  | OnceCell.OpReset => true
  | _ => false
  end.

Definition call_resets (ops : list CallOp) : nat :=
  length (filter is_call_reset ops).

Definition cell_resets {T : Type} (ops : list (OnceCell.Op W E T)) : nat :=
  length (filter is_cell_reset ops).

End Caller.
Arguments CallOp : clear implicits.
End Caller.

(** ** The declaration macros of [macros.h] *)

Module Macros.
Section Macros.
Context {W E : Type}.


(** [LAZY_STATIC_VOID(name, expr)] is
    [static components::Lazy<void> name([] { expr; })]: the value of [expr]
    is dropped. *)
Definition LAZY_STATIC_VOID {T : Type} (expr : @InitFn W E T) : LazyVoid.t W E :=
  LazyVoid.ctor
    (fun w =>
       match expr w with
       | (Returned _, w') => (Returned tt, w')
       | (Thrown e, w') => (Thrown e, w')
       end).

End Macros.
End Macros.

(** ** Several threads on one cell

    The threads share one [OnceCell<T>] and one environment and run
    interleaved; each step of a thread is one access to a member of the
    cell (the primitive the function-level model runs at that point of the
    source), an invocation of the initializer, or the release of the lock.
    Steps are atomic and every load sees the latest store (sequential
    consistency); the memory orders of the source are not represented.  A
    thread whose next step is to lock a mutex that is held does not move. *)

Module Threads.
Section Threads.
Context {W E T : Type}.

(** Where a thread is in [OnceCell<T>::get_or_init]. *)
Inductive Pc : Type :=
| FastCheck                 (* if (state_.load(acquire) == Initialized) *)
| FastReturn                (*   return *value_; *)
| Lock                      (* std::unique_lock<std::mutex> lock(mtx_); *)
| SlowCheck                 (* if (state_.load(relaxed) == Initialized) *)
| SlowReturn                (*   return *value_; *)
| StoreInitializing         (* state_.store(Initializing, relaxed); *)
| Invoke                    (* std::forward<Fn>(fn)() *)
| Emplace (v : T)           (* value_.emplace(...); *)
| StoreInitialized          (* state_.store(Initialized, release); *)
| ReturnValue               (* return *value_; *)
| Rollback (e : E)          (* catch (...) { state_.store(Uninitialized, release); throw; } *)
| Unlock (r : @Result E T)  (* ~unique_lock on the way out *)
| Done (r : @Result E T).

(** Where a thread is in [OnceCell<T>::reset]. *)
Inductive ResetPc : Type :=
| ResetLock                 (* std::lock_guard<std::mutex> lock(mtx_); *)
| ResetValue                (* value_.reset(); *)
| ResetStore                (* state_.store(Uninitialized, release); *)
| ResetUnlock               (* ~lock_guard *)
| ResetDone.

Inductive Thread : Type :=
| InGetOrInit (fn : @InitFn W E T) (pc : Pc)
| InReset (pc : ResetPc).

Inductive Step : Type :=
| Stepped (th : Thread) (c : OnceCell.t T) (w : W) (tr : list (Event (OnceCell.t T)))
| Blocked
| Finished
| Crashed.

(** One primitive of the function-level model as one step. *)
Definition atomically {A : Type} (m : @M W E (OnceCell.t T) A)
    (next : A -> Thread) (handler : E -> Thread) (c : OnceCell.t T) (w : W) : Step :=
  match m c w with
  | Ok a c' w' tr => Stepped (next a) c' w' tr
  | Throw e c' w' tr => Stepped (handler e) c' w' tr
  | Undefined => Crashed
  end.

Definition step_get_or_init (fn : @InitFn W E T) (pc : Pc)
    (c : OnceCell.t T) (w : W) : Step :=
  let at_ (pc' : Pc) := InGetOrInit fn pc' in
  let rethrow (e : E) := at_ (Done (Thrown e)) in
  match pc with
  | FastCheck =>
      atomically OnceCell.load_state
        (fun s => if State_eqb s Initialized then at_ FastReturn else at_ Lock)
        rethrow c w
  | FastReturn =>
      atomically OnceCell.deref_value (fun v => at_ (Done (Returned v))) rethrow c w
  | Lock =>
      if OnceCell.mtx_ c then Blocked
      else atomically OnceCell.lock (fun _ => at_ SlowCheck) rethrow c w
  | SlowCheck =>
      atomically OnceCell.load_state
        (fun s => if State_eqb s Initialized then at_ SlowReturn else at_ StoreInitializing)
        rethrow c w
  | SlowReturn =>
      atomically OnceCell.deref_value (fun v => at_ (Unlock (Returned v))) rethrow c w
  | StoreInitializing =>
      atomically (OnceCell.store_state Initializing) (fun _ => at_ Invoke) rethrow c w
  | Invoke =>
      atomically (invoke fn) (fun v => at_ (Emplace v)) (fun e => at_ (Rollback e)) c w
  | Emplace v =>
      atomically (OnceCell.emplace v) (fun _ => at_ StoreInitialized) rethrow c w
  | StoreInitialized =>
      atomically (OnceCell.store_state Initialized) (fun _ => at_ ReturnValue) rethrow c w
  | ReturnValue =>
      atomically OnceCell.deref_value (fun v => at_ (Unlock (Returned v))) rethrow c w
  | Rollback e =>
      atomically (OnceCell.store_state Uninitialized)
        (fun _ => at_ (Unlock (Thrown e))) rethrow c w
  | Unlock r =>
      atomically OnceCell.unlock (fun _ => at_ (Done r)) rethrow c w
  | Done _ => Finished
  end.

Definition step_reset (pc : ResetPc) (c : OnceCell.t T) (w : W) : Step :=
  let stay (_ : E) := InReset pc in
  match pc with
  | ResetLock =>
      if OnceCell.mtx_ c then Blocked
      else atomically OnceCell.lock (fun _ => InReset ResetValue) stay c w
  | ResetValue =>
      atomically OnceCell.reset_value (fun _ => InReset ResetStore) stay c w
  | ResetStore =>
      atomically (OnceCell.store_state Uninitialized)
        (fun _ => InReset ResetUnlock) stay c w
  | ResetUnlock =>
      atomically OnceCell.unlock (fun _ => InReset ResetDone) stay c w
  | ResetDone => Finished
  end.

Definition step (th : Thread) (c : OnceCell.t T) (w : W) : Step :=
  match th with
  | InGetOrInit fn pc => step_get_or_init fn pc c w
  | InReset pc => step_reset pc c w
  end.

(** The shared cell and environment, the threads, and the events so far. *)
Record Config : Type :=
  mkConfig { cell : OnceCell.t T;
             env : W;
             threads : list Thread;
             trace : list (Event (OnceCell.t T)) }.

Fixpoint set_thread (i : nat) (th : Thread) (ths : list Thread) : list Thread :=
  match ths, i with
  | [], _ => []
  | _ :: rest, O => th :: rest
  | th0 :: rest, S i' => th0 :: set_thread i' th rest
  end.

(** The scheduler gives thread [i] one step.  A thread that is blocked,
    has finished or does not exist leaves the configuration as it is;
    [None] is undefined behaviour. *)
Definition schedule (i : nat) (cfg : Config) : option Config :=
  match nth_error (threads cfg) i with
  | None => Some cfg
  | Some th =>
      match step th (cell cfg) (env cfg) with
      | Stepped th' c' w' tr =>
          Some {| cell := c'; env := w';
                  threads := set_thread i th' (threads cfg);
                  trace := trace cfg ++ tr |}
      | Blocked | Finished => Some cfg
      | Crashed => None
      end
  end.

Fixpoint run_schedule (sched : list nat) (cfg : Config) : option Config :=
  match sched with
  | [] => Some cfg
  | i :: rest =>
      match schedule i cfg with
      | Some cfg' => run_schedule rest cfg'
      | None => None
      end
  end.

(** One thread per initializer, each about to enter [get_or_init]. *)
Definition start (c : OnceCell.t T) (w : W) (fns : list (@InitFn W E T)) : Config :=
  {| cell := c; env := w;
     threads := map (fun fn => InGetOrInit fn FastCheck) fns;
     trace := [] |}.

(** What a thread has returned or thrown, once it has. *)
Definition result (th : Thread) : option (@Result E T) :=
  match th with
  | InGetOrInit _ (Done r) => Some r
  | _ => None
  end.

Definition finished (th : Thread) : bool :=
  match th with
  | InGetOrInit _ (Done _) => true
  | InReset ResetDone => true
  | _ => false
  end.

(** Between taking the lock and releasing it. *)
Definition holds_lock_at (pc : Pc) : bool :=
  match pc with
  | SlowCheck | SlowReturn | StoreInitializing | Invoke | Emplace _
  | StoreInitialized | ReturnValue | Rollback _ | Unlock _ => true
  | FastCheck | FastReturn | Lock | Done _ => false
  end.

Definition holds_lock (th : Thread) : bool :=
  match th with
  | InGetOrInit _ pc => holds_lock_at pc
  | InReset (ResetValue | ResetStore | ResetUnlock) => true
  | InReset (ResetLock | ResetDone) => false
  end.

(** An upper bound on the steps a thread in [get_or_init] still takes. *)
Definition remaining_at (pc : Pc) : nat :=
  match pc with
  | FastCheck => 9
  | Lock => 8
  | SlowCheck => 7
  | StoreInitializing => 6
  | Invoke => 5
  | Emplace _ => 4
  | StoreInitialized => 3
  | ReturnValue | SlowReturn | Rollback _ => 2
  | FastReturn | Unlock _ => 1
  | Done _ => 0
  end.

Definition remaining (th : Thread) : nat :=
  match th with
  | InGetOrInit _ pc => remaining_at pc
  | InReset ResetLock => 4
  | InReset ResetValue => 3
  | InReset ResetStore => 2
  | InReset ResetUnlock => 1
  | InReset ResetDone => 0
  end.

(** What a thread at [pc] relies on about the shared cell. *)
Definition pc_ok (pc : Pc) (c : OnceCell.t T) : Prop :=
  match pc with
  | FastCheck | Lock | SlowCheck => True
  | FastReturn | SlowReturn | ReturnValue => OnceCell.state_ c = Initialized
  | StoreInitializing | Invoke | Emplace _ | Rollback _ =>
      OnceCell.state_ c <> Initialized
  | StoreInitialized =>
      OnceCell.state_ c <> Initialized /\ OnceCell.value_ c <> None
  | Unlock (Returned v) | Done (Returned v) =>
      OnceCell.state_ c = Initialized /\ OnceCell.value_ c = Some v
  | Unlock (Thrown _) => OnceCell.state_ c <> Initialized
  | Done (Thrown _) => True
  end.

(** The initializer has returned but the flag is not yet [Initialized]. *)
Definition publishing (pc : Pc) : bool :=
  match pc with
  | Emplace _ | StoreInitialized => true
  | _ => false
  end.

(** The invariant of the threads in [get_or_init] (no thread in [reset]):
    [owner] is the thread inside the critical section, if any. *)
Definition invariant (owner : option nat) (cfg : Config) : Prop :=
  OnceCell.mtx_ (cell cfg) = match owner with Some _ => true | None => false end
  /\ (OnceCell.state_ (cell cfg) = Initialized -> OnceCell.value_ (cell cfg) <> None)
  /\ (forall i th, nth_error (threads cfg) i = Some th ->
        exists fn pc,
          th = InGetOrInit fn pc
          /\ pc_ok pc (cell cfg)
          /\ (holds_lock_at pc = true <-> owner = Some i))
  /\ (forall i, owner = Some i -> i < length (threads cfg))
  /\ successes (trace cfg) <= 1
  /\ (successes (trace cfg) = 1 ->
      OnceCell.state_ (cell cfg) = Initialized
      \/ exists i fn pc,
          nth_error (threads cfg) i = Some (InGetOrInit fn pc)
          /\ publishing pc = true).

(** On the way out with an exception. *)
Definition throws_at (pc : Pc) : bool :=
  match pc with
  | Rollback _ | Unlock (Thrown _) | Done (Thrown _) => true
  | _ => false
  end.

(** The further invariant of a race in which every thread passes the same
    initializer [fn], which returns [v] and leaves [w1] when invoked in the
    environment [w0] the race starts in. *)
Definition same_initializer (fn : @InitFn W E T) (w0 w1 : W) (v : T)
    (cfg : Config) : Prop :=
  (forall i fn' pc,
      nth_error (threads cfg) i = Some (InGetOrInit fn' pc) ->
      fn' = fn /\ throws_at pc = false /\ (forall v', pc = Emplace v' -> v' = v))
  /\ (successes (trace cfg) = 0 ->
      env cfg = w0
      /\ invocations (trace cfg) = []
      /\ OnceCell.state_ (cell cfg) <> Initialized
      /\ forall i fn' pc,
          nth_error (threads cfg) i = Some (InGetOrInit fn' pc) ->
          publishing pc = false)
  /\ (successes (trace cfg) = 1 ->
      env cfg = w1 /\ invocations (trace cfg) = [Invoked true])
  /\ (forall v', OnceCell.value_ (cell cfg) = Some v' -> v' = v).

End Threads.
Arguments Pc : clear implicits.
Arguments Thread : clear implicits.
Arguments Step : clear implicits.
Arguments Config : clear implicits.
End Threads.

(** * Properties *)

(** ** Evaluating the primitives *)

Ltac exec_unfold :=
  unfold OnceCall.call, OnceCall.reset, OnceCall.is_initialized,
    OnceCall.scoped_lock, OnceCall.lock, OnceCall.unlock,
    OnceCall.load_state, OnceCall.store_state,
    OnceCell.get_or_init, OnceCell.get, OnceCell.try_get, OnceCell.reset,
    OnceCell.is_initialized, OnceCell.operator_star, OnceCell.operator_star_const,
    OnceCell.operator_arrow, OnceCell.operator_arrow_const,
    OnceCell.scoped_lock, OnceCell.lock, OnceCell.unlock,
    OnceCell.load_state, OnceCell.store_state, OnceCell.deref_value,
    OnceCell.emplace, OnceCell.reset_value, OnceCell.discard,
    finally, try_catch, bind, after, invoke, read, write, ret, throw, undefined.

Lemma successes_app {O : Type} (tr1 tr2 : list (Event O)) :
  successes (tr1 ++ tr2) = successes tr1 + successes tr2.
Proof.
  unfold successes. rewrite filter_app, length_app. reflexivity.
Qed.

Lemma successes_lift {O P : Type} (put : P -> O) (tr : list (Event P)) :
  successes (map (lift_event put) tr) = successes tr.
Proof.
  unfold successes. induction tr as [| [[|] | p] tr IH]; simpl; auto.
Qed.

Lemma after_nil {W E O A : Type} (r : @Outcome W E O A) : after [] r = r.
Proof. destruct r; reflexivity. Qed.

Section OnceCallFacts.
Context {W E : Type}.
Implicit Types (o : OnceCall.t) (w : W) (fn : @InitFn W E unit).

(** The fast path: an [Initialized] flag ends the call at the first test. *)
Lemma call_fast_path fn o w :
  OnceCall.state_ o = Initialized ->
  OnceCall.call fn o w = Ok tt o w [].
Proof.
  intros Hs. exec_unfold. simpl. rewrite Hs. reflexivity.
Qed.

(** The slow path with the mutex free, by the outcome of the initializer. *)
Lemma call_slow_path fn o w :
  OnceCall.mtx_ o = false ->
  OnceCall.state_ o <> Initialized ->
  OnceCall.call fn o w =
    match fn w with
    | (Returned _, w') =>
        Ok tt (OnceCall.mk Initialized false) w'
          [Wrote (OnceCall.mk (OnceCall.state_ o) true);
           Wrote (OnceCall.mk Initializing true);
           Invoked true;
           Wrote (OnceCall.mk Initialized true);
           Wrote (OnceCall.mk Initialized false)]
    | (Thrown e, w') =>
        Throw e (OnceCall.mk Uninitialized false) w'
          [Wrote (OnceCall.mk (OnceCall.state_ o) true);
           Wrote (OnceCall.mk Initializing true);
           Invoked false;
           Wrote (OnceCall.mk Uninitialized true);
           Wrote (OnceCall.mk Uninitialized false)]
    end.
Proof.
  destruct o as [s m]. simpl. intros -> Hs.
  exec_unfold. simpl.
  destruct s; try congruence; simpl;
    destruct (fn w) as [[u | e] w']; simpl; reflexivity.
Qed.

(** A call that returns normally leaves the flag [Initialized]. *)
Lemma call_returns_initialized fn o w o1 w1 tr1 :
  OnceCall.call fn o w = Ok tt o1 w1 tr1 ->
  OnceCall.state_ o1 = Initialized.
Proof.
  destruct o as [s m]. exec_unfold. simpl.
  destruct s; simpl; destruct m; simpl; try discriminate;
    try (intros [= <- _ _]; reflexivity);
    destruct (fn w) as [[u | e] w']; simpl; try discriminate;
    intros [= <- _ _]; reflexivity.
Qed.

(** Calls made one after the other on one [OnceCall] whose mutex is free:
    none is undefined, and at most one invocation succeeds, none when the
    flag is already [Initialized]. *)
Lemma run_calls_successes (fns : list (@InitFn W E unit)) :
  forall o w,
    OnceCall.mtx_ o = false ->
    exists o' w' tr,
      run (map OnceCall.call fns) o w = Some (o', w', tr)
      /\ OnceCall.mtx_ o' = false
      /\ successes tr <= (if State_eqb (OnceCall.state_ o) Initialized then 0 else 1).
Proof.
  induction fns as [| fn fns IH]; intros o w Hm.
  - exists o, w, []. simpl. repeat split; auto.
    destruct (State_eqb _ _); auto.
  - simpl.
    destruct (State_eqb (OnceCall.state_ o) Initialized) eqn:Hs.
    + assert (Hi : OnceCall.state_ o = Initialized)
        by (destruct (OnceCall.state_ o); simpl in Hs; congruence).
      rewrite (call_fast_path fn o w Hi).
      destruct (IH o w Hm) as (o' & w' & tr & Hrun & Hm' & Hle).
      rewrite Hrun, Hs in *. exists o', w', tr. auto.
    + assert (Hi : OnceCall.state_ o <> Initialized)
        by (intros Hi; rewrite Hi in Hs; discriminate).
      rewrite (call_slow_path fn o w Hm Hi).
      destruct (fn w) as [[u | e] w1].
      * destruct (IH (OnceCall.mk Initialized false) w1 eq_refl)
          as (o' & w' & tr & Hrun & Hm' & Hle).
        rewrite Hrun. eexists _, _, _. split; [reflexivity |]. split; [assumption |].
        rewrite successes_app. simpl in Hle. cbn. lia.
      * destruct (IH (OnceCall.mk Uninitialized false) w1 eq_refl)
          as (o' & w' & tr & Hrun & Hm' & Hle).
        rewrite Hrun. eexists _, _, _. split; [reflexivity |]. split; [assumption |].
        rewrite successes_app. simpl in Hle. cbn. lia.
Qed.

End OnceCallFacts.

Section LazyVoidFacts.
Context {W E : Type}.
Implicit Types (l : LazyVoid.t W E) (w : W).

(** [Lazy<void>::get] is [once_.call(init_fn_)]. *)
Lemma lazy_void_get_delegates l w :
  LazyVoid.get l w =
  LazyVoid.on_once (OnceCall.call (LazyVoid.init_fn_ l)) l w.
Proof.
  unfold LazyVoid.get, bind, read. apply after_nil.
Qed.

(** Repeated [get()] on the adapter is the same sequence of [call]s on its
    [once_] member with the bound initializer. *)
Lemma lazy_void_run_gets (n : nat) :
  forall l w,
    run (repeat LazyVoid.get n) l w =
    match run (map OnceCall.call (repeat (LazyVoid.init_fn_ l) n)) (LazyVoid.once_ l) w with
    | Some (o', w', tr) =>
        Some (LazyVoid.mk o' (LazyVoid.init_fn_ l), w',
              map (lift_event (fun q => LazyVoid.mk q (LazyVoid.init_fn_ l))) tr)
    | None => None
    end.
Proof.
  induction n as [| n IH]; intros l w.
  - destruct l; reflexivity.
  - simpl. rewrite lazy_void_get_delegates.
    unfold LazyVoid.on_once, on_member.
    destruct (OnceCall.call (LazyVoid.init_fn_ l) (LazyVoid.once_ l) w)
      as [[] o1 w1 tr1 | e o1 w1 tr1 |]; auto; rewrite IH; simpl;
      destruct (run _ o1 w1) as [[[o2 w2] tr2] |]; auto;
      rewrite map_app; reflexivity.
Qed.

End LazyVoidFacts.

(** ** The run-once action *)

(** C1.  Calls made one after the other on one [OnceCall] (whose mutex
    nobody holds) are all defined and contain at most one successful
    invocation of an initializer; once a call has returned normally, every
    later call, with whatever initializer, returns normally without invoking
    it and without touching the object or the environment.  The same holds
    for [Lazy<void>::get], which passes the bound initializer to
    [OnceCall::call].  In [test_once_call] and in [test_lazy_static_void]
    the counter is 1 after the two calls. *)
Theorem call_invokes_successfully_at_most_once :
  (forall (W E : Type) (o : OnceCall.t) (fns : list (@InitFn W E unit)) (w : W),
      OnceCall.mtx_ o = false ->
      exists o' w' tr,
        run (map OnceCall.call fns) o w = Some (o', w', tr)
        /\ successes tr <= 1)
  /\ (forall (W E : Type) (o o1 : OnceCall.t) (fn : @InitFn W E unit) (w w1 : W) tr1,
       OnceCall.call fn o w = Ok tt o1 w1 tr1 ->
       forall (fn' : @InitFn W E unit) (w2 : W),
         OnceCall.call fn' o1 w2 = Ok tt o1 w2 [])
  /\ (forall (W E : Type) (l : LazyVoid.t W E) (n : nat) (w : W),
       OnceCall.mtx_ (LazyVoid.once_ l) = false ->
       exists l' w' tr,
         run (repeat LazyVoid.get n) l w = Some (l', w', tr)
         /\ successes tr <= 1)
  /\ (forall (W E : Type) (l l1 : LazyVoid.t W E) (w w1 : W) tr1,
       LazyVoid.get l w = Ok tt l1 w1 tr1 ->
       forall w2 : W, LazyVoid.get l1 w2 = Ok tt l1 w2 [])
  /\ (forall E : Type,
       exists o tr, @Scenarios.test_once_call E = Some (o, 1%Z, tr) /\ successes tr = 1)
  /\ (forall E : Type,
       exists l tr, @Scenarios.test_lazy_static_void E = Some (l, 1%Z, tr) /\ successes tr = 1).
Proof.
  repeat apply conj.
  - intros W E o fns w Hm.
    destruct (run_calls_successes fns o w Hm) as (o' & w' & tr & Hrun & _ & Hle).
    exists o', w', tr. split; [assumption |].
    destruct (State_eqb _ _); lia.
  - intros W E o o1 fn w w1 tr1 Hcall fn' w2.
    apply call_fast_path. eapply call_returns_initialized; eassumption.
  - intros W E l n w Hm. rewrite lazy_void_run_gets.
    destruct (run_calls_successes (repeat (LazyVoid.init_fn_ l) n) _ w Hm)
      as (o' & w' & tr & Hrun & _ & Hle).
    rewrite Hrun. eexists _, _, _. split; [reflexivity |].
    rewrite successes_lift. destruct (State_eqb _ _); lia.
  - intros W E l l1 w w1 tr1 Hget w2.
    rewrite lazy_void_get_delegates in *.
    unfold LazyVoid.on_once, on_member in *.
    destruct (OnceCall.call (LazyVoid.init_fn_ l) (LazyVoid.once_ l) w)
      as [[] o1 w1' tr | |] eqn:Hcall; try discriminate.
    injection Hget as <- _ _. simpl.
    rewrite call_fast_path by (eapply call_returns_initialized; eassumption).
    reflexivity.
  - intros E. eexists _, _. split; reflexivity.
  - intros E. eexists _, _. split; reflexivity.
Qed.

(** [test_once_call] and [test_lazy_static_void] as instances: a free
    mutex, a first call that returns, and a second call that then does
    nothing. *)
Lemma call_invokes_successfully_at_most_once_witness :
  (OnceCall.mtx_ OnceCall.ctor = false
   /\ (exists o' w' tr,
         run (map OnceCall.call [@Scenarios.init_fn unit; Scenarios.init_fn]) OnceCall.ctor 0%Z
         = Some (o', w', tr) /\ successes tr <= 1)
   /\ OnceCall.call (@Scenarios.init_fn unit) (OnceCall.mk Initialized false) 1%Z
      = Ok tt (OnceCall.mk Initialized false) 1%Z [])
  /\ (OnceCall.mtx_ (LazyVoid.once_ (@Scenarios.lazy_void unit)) = false
      /\ (exists l' w' tr,
            run (repeat LazyVoid.get 2) (@Scenarios.lazy_void unit) 0%Z = Some (l', w', tr)
            /\ successes tr <= 1)
      /\ LazyVoid.get (LazyVoid.mk (OnceCall.mk Initialized false) (@Scenarios.init_fn unit)) 1%Z
         = Ok tt (LazyVoid.mk (OnceCall.mk Initialized false) Scenarios.init_fn) 1%Z []).
Proof.
  destruct call_invokes_successfully_at_most_once
    as (Hseq & Hlater & Hlazy_seq & Hlazy_later & _).
  split.
  - split; [reflexivity |]. split.
    + apply (Hseq Z unit OnceCall.ctor _ 0%Z). reflexivity.
    + apply (Hlater Z unit OnceCall.ctor _ Scenarios.init_fn 0%Z 1%Z
               [Wrote (OnceCall.mk Uninitialized true);
                Wrote (OnceCall.mk Initializing true);
                Invoked true;
                Wrote (OnceCall.mk Initialized true);
                Wrote (OnceCall.mk Initialized false)]).
      reflexivity.
  - split; [reflexivity |]. split.
    + apply (Hlazy_seq Z unit Scenarios.lazy_void 2 0%Z). reflexivity.
    + eapply (Hlazy_later Z unit Scenarios.lazy_void _ 0%Z 1%Z). reflexivity.
Defined.

(** ** The lazy value cell *)

Section OnceCellFacts.
Context {W E T : Type}.
Implicit Types (c : OnceCell.t T) (w : W) (fn : @InitFn W E T).

Lemma State_eqb_eq (a b : State) : State_eqb a b = true <-> a = b.
Proof. destruct a, b; simpl; split; congruence. Qed.

Lemma State_eqb_neq (a b : State) : State_eqb a b = false <-> a <> b.
Proof. destruct a, b; simpl; split; congruence. Qed.

(** The fast path of [get_or_init]: the slot is read as it is. *)
Lemma get_or_init_fast_path fn c w :
  OnceCell.state_ c = Initialized ->
  OnceCell.get_or_init fn c w =
    match OnceCell.value_ c with
    | Some v => Ok v c w []
    | None => Undefined
    end.
Proof.
  intros Hs. exec_unfold. simpl. rewrite Hs. simpl.
  destruct (OnceCell.value_ c); reflexivity.
Qed.

(** The slow path with the mutex free, by the outcome of the initializer.
    The handler writes the flag only: after a throw the slot is what it
    was on entry. *)
Lemma get_or_init_slow_path fn c w :
  OnceCell.mtx_ c = false ->
  OnceCell.state_ c <> Initialized ->
  OnceCell.get_or_init fn c w =
    match fn w with
    | (Returned v, w') =>
        Ok v (OnceCell.mk (Some v) Initialized false) w'
          [Wrote (OnceCell.mk (OnceCell.value_ c) (OnceCell.state_ c) true);
           Wrote (OnceCell.mk (OnceCell.value_ c) Initializing true);
           Invoked true;
           Wrote (OnceCell.mk (Some v) Initializing true);
           Wrote (OnceCell.mk (Some v) Initialized true);
           Wrote (OnceCell.mk (Some v) Initialized false)]
    | (Thrown e, w') =>
        Throw e (OnceCell.mk (OnceCell.value_ c) Uninitialized false) w'
          [Wrote (OnceCell.mk (OnceCell.value_ c) (OnceCell.state_ c) true);
           Wrote (OnceCell.mk (OnceCell.value_ c) Initializing true);
           Invoked false;
           Wrote (OnceCell.mk (OnceCell.value_ c) Uninitialized true);
           Wrote (OnceCell.mk (OnceCell.value_ c) Uninitialized false)]
    end.
Proof.
  destruct c as [slot s m]. simpl. intros -> Hs.
  exec_unfold. simpl.
  destruct s; try congruence; simpl;
    destruct (fn w) as [[v | e] w']; simpl; reflexivity.
Qed.

(** A [get_or_init] that returns [v] leaves the flag [Initialized] and [v]
    in the slot. *)
Lemma get_or_init_returns fn c w v c1 w1 tr1 :
  OnceCell.get_or_init fn c w = Ok v c1 w1 tr1 ->
  OnceCell.state_ c1 = Initialized /\ OnceCell.value_ c1 = Some v.
Proof.
  destruct (State_eqb (OnceCell.state_ c) Initialized) eqn:Hs.
  - apply State_eqb_eq in Hs. rewrite (get_or_init_fast_path fn c w Hs).
    destruct (OnceCell.value_ c) eqn:Hv; try discriminate.
    intros [= <- <- _ _]. auto.
  - destruct c as [slot s [|]]; simpl in Hs.
    + exec_unfold. simpl. rewrite Hs. simpl. discriminate.
    + apply State_eqb_neq in Hs.
      rewrite (get_or_init_slow_path fn (OnceCell.mk slot s false) w eq_refl Hs).
      destruct (fn w) as [[v' | e] w']; try discriminate.
      intros [= <- <- _ _]. auto.
Qed.

Lemma is_initialized_spec c w :
  @OnceCell.is_initialized W E T c w =
  Ok (State_eqb (OnceCell.state_ c) Initialized) c w [].
Proof. reflexivity. Qed.

(** [get] and [try_get] have the same body. *)
Lemma try_get_is_get c w : @OnceCell.try_get W E T c w = OnceCell.get c w.
Proof. reflexivity. Qed.

Lemma get_spec c w :
  @OnceCell.get W E T c w =
    if State_eqb (OnceCell.state_ c) Initialized then
      match OnceCell.value_ c with
      | Some v => Ok (address_of v) c w []
      | None => Undefined
      end
    else Ok nullptr c w [].
Proof.
  exec_unfold. simpl. destruct (State_eqb _ _); simpl; auto.
  destruct (OnceCell.value_ c); reflexivity.
Qed.

(** [reset] with the mutex free. *)
Lemma reset_spec c w :
  OnceCell.mtx_ c = false ->
  @OnceCell.reset W E T c w =
    Ok tt (OnceCell.mk None Uninitialized false) w
      [Wrote (OnceCell.mk (OnceCell.value_ c) (OnceCell.state_ c) true);
       Wrote (OnceCell.mk None (OnceCell.state_ c) true);
       Wrote (OnceCell.mk None Uninitialized true);
       Wrote (OnceCell.mk None Uninitialized false)].
Proof.
  destruct c as [slot s m]. simpl. intros ->. reflexivity.
Qed.

Lemma quiescent_ctor : OnceCell.quiescent (@OnceCell.ctor T).
Proof.
  split; [reflexivity |]. unfold OnceCell.slot_matches_state. simpl.
  split; [congruence | discriminate].
Qed.

(** Every operation of the public interface, started between two calls,
    is defined and ends between two calls. *)
Lemma perform_quiescent (op : OnceCell.Op W E T) c w :
  OnceCell.quiescent c ->
  exists c' w' tr,
    (exists u, OnceCell.perform op c w = Ok u c' w' tr
               \/ exists e, OnceCell.perform op c w = Throw e c' w' tr)
    /\ OnceCell.quiescent c'.
Proof.
  intros [Hm Hinv]. unfold OnceCell.slot_matches_state in Hinv.
  assert (Hq : forall slot s, (slot <> None <-> s = Initialized) ->
                              OnceCell.quiescent (@OnceCell.mk T slot s false)).
  { intros slot s H. split; [reflexivity | exact H]. }
  destruct op as [fn | | | |]; simpl.
  - unfold OnceCell.discard, bind.
    destruct (State_eqb (OnceCell.state_ c) Initialized) eqn:Hs.
    + apply State_eqb_eq in Hs. rewrite (get_or_init_fast_path fn c w Hs).
      destruct (OnceCell.value_ c) as [v |] eqn:Hv.
      * exists c, w, []. split; [exists tt; left; reflexivity |].
        split; [assumption |]. unfold OnceCell.slot_matches_state.
        rewrite Hv, Hs. split; congruence.
      * exfalso. apply Hinv in Hs. congruence.
    + apply State_eqb_neq in Hs. rewrite (get_or_init_slow_path fn c w Hm Hs).
      destruct (fn w) as [[v | e] w1]; simpl.
      * eexists _, _, _. split; [exists tt; left; reflexivity |].
        apply Hq. split; congruence.
      * eexists _, _, _. split; [exists tt; right; exists e; reflexivity |].
        apply Hq. split; [| discriminate].
        intros Hv. apply Hinv in Hv. contradiction.
  - unfold OnceCell.discard, bind. rewrite get_spec.
    exists c, w, []. split; [| split; assumption].
    exists tt. left.
    destruct (State_eqb (OnceCell.state_ c) Initialized) eqn:Hs; [| reflexivity].
    apply State_eqb_eq in Hs.
    destruct (OnceCell.value_ c) eqn:Hv; [reflexivity |].
    exfalso. apply Hinv in Hs. congruence.
  - unfold OnceCell.discard, bind. rewrite try_get_is_get, get_spec.
    exists c, w, []. split; [| split; assumption].
    exists tt. left.
    destruct (State_eqb (OnceCell.state_ c) Initialized) eqn:Hs; [| reflexivity].
    apply State_eqb_eq in Hs.
    destruct (OnceCell.value_ c) eqn:Hv; [reflexivity |].
    exfalso. apply Hinv in Hs. congruence.
  - exists c, w, []. split; [exists tt; left; reflexivity | split; assumption].
  - rewrite (reset_spec c w Hm). eexists _, _, _.
    split; [exists tt; left; reflexivity |].
    apply Hq. split; [congruence | discriminate].
Qed.

(** Any sequence of operations on a cell that starts between two calls is
    defined and ends between two calls. *)
Lemma run_quiescent (ops : list (OnceCell.Op W E T)) :
  forall c w,
    OnceCell.quiescent c ->
    exists c' w' tr,
      run (map OnceCell.perform ops) c w = Some (c', w', tr)
      /\ OnceCell.quiescent c'.
Proof.
  induction ops as [| op ops IH]; intros c w Hq.
  - exists c, w, []. split; [reflexivity | assumption].
  - simpl.
    destruct (perform_quiescent op c w Hq) as (c1 & w1 & tr1 & [u [Hr | [e Hr]]] & Hq1);
      rewrite Hr; destruct (IH c1 w1 Hq1) as (c2 & w2 & tr2 & Hrun & Hq2);
      rewrite Hrun; eexists _, _, _; (split; [reflexivity | assumption]).
Qed.

End OnceCellFacts.

(** C2.  Once [get_or_init] has returned a value [v], every later
    [get_or_init], with any initializer and in any environment, returns
    that same [v] with no event at all (the new initializer is not invoked,
    the cell and the environment are untouched), and [is_initialized()]
    returns [true]. *)
Theorem get_or_init_reuses_first_value :
  forall (W E T : Type) (c c1 : OnceCell.t T) (f : @InitFn W E T)
         (w w1 : W) (v : T) (tr1 : list (Event (OnceCell.t T))),
    OnceCell.get_or_init f c w = Ok v c1 w1 tr1 ->
    (forall (g : @InitFn W E T) (w2 : W),
        OnceCell.get_or_init g c1 w2 = Ok v c1 w2 [])
    /\ (forall w2 : W, @OnceCell.is_initialized W E T c1 w2 = Ok true c1 w2 []).
Proof.
  intros W E T c c1 f w w1 v tr1 Hret.
  apply get_or_init_returns in Hret as [Hs Hv]. split.
  - intros g w2. rewrite (get_or_init_fast_path g c1 w2 Hs), Hv. reflexivity.
  - intros w2. rewrite is_initialized_spec, Hs. reflexivity.
Qed.

(** [test_once_cell_single_thread]: [get_or_init([] { return 42; })] and
    then [get_or_init([] { return 123; })] both give 42. *)
Lemma get_or_init_reuses_first_value_witness :
  let first : @InitFn unit unit Z := fun w => (Returned 42%Z, w) in
  let second : @InitFn unit unit Z := fun w => (Returned 123%Z, w) in
  exists c1 tr1,
    OnceCell.get_or_init first OnceCell.ctor tt = Ok 42%Z c1 tt tr1
    /\ OnceCell.get_or_init second c1 tt = Ok 42%Z c1 tt []
    /\ @OnceCell.is_initialized unit unit Z c1 tt = Ok true c1 tt [].
Proof.
  intros first second.
  eexists _, _. split; [reflexivity |].
  destruct (get_or_init_reuses_first_value unit unit Z OnceCell.ctor _ first tt _ _ _ eq_refl)
    as [Hget Hinit].
  split; [apply Hget | apply Hinit].
Defined.

(** C3.  On a cell, and on a run-once action, that is [Uninitialized]
    between two calls: when the initializer throws [e], [get_or_init]
    (respectively [call]) throws [e] to its caller and leaves the flag
    [Uninitialized], the slot empty and [is_initialized()] false; a later
    [get_or_init] (respectively [call]) whose initializer returns then
    returns normally, with the initializer's value, and leaves
    [is_initialized()] true. *)
Theorem failed_initialization_can_be_retried :
  (forall (W E T : Type) (c : OnceCell.t T) (fn : @InitFn W E T) (w w1 : W) (e : E),
      OnceCell.quiescent c ->
      OnceCell.state_ c = Uninitialized ->
      fn w = (Thrown e, w1) ->
      exists c1 tr1,
        OnceCell.get_or_init fn c w = Throw e c1 w1 tr1
        /\ OnceCell.state_ c1 = Uninitialized
        /\ OnceCell.value_ c1 = None
        /\ @OnceCell.is_initialized W E T c1 w1 = Ok false c1 w1 []
        /\ forall (g : @InitFn W E T) (w2 w3 : W) (v : T),
            g w2 = (Returned v, w3) ->
            exists c2 tr2,
              OnceCell.get_or_init g c1 w2 = Ok v c2 w3 tr2
              /\ @OnceCell.is_initialized W E T c2 w3 = Ok true c2 w3 [])
  /\ (forall (W E : Type) (o : OnceCall.t) (fn : @InitFn W E unit) (w w1 : W) (e : E),
      OnceCall.mtx_ o = false ->
      OnceCall.state_ o = Uninitialized ->
      fn w = (Thrown e, w1) ->
      exists o1 tr1,
        OnceCall.call fn o w = Throw e o1 w1 tr1
        /\ OnceCall.state_ o1 = Uninitialized
        /\ @OnceCall.is_initialized W E o1 w1 = Ok false o1 w1 []
        /\ forall (g : @InitFn W E unit) (w2 w3 : W),
            g w2 = (Returned tt, w3) ->
            exists o2 tr2,
              OnceCall.call g o1 w2 = Ok tt o2 w3 tr2
              /\ @OnceCall.is_initialized W E o2 w3 = Ok true o2 w3 []).
Proof.
  split.
  - intros W E T c fn w w1 e [Hm Hinv] Hs Hfn.
    assert (Hn : OnceCell.state_ c <> Initialized) by congruence.
    assert (Hv : OnceCell.value_ c = None).
    { destruct (OnceCell.value_ c) eqn:Hv; [| reflexivity].
      exfalso. apply Hn, Hinv. rewrite Hv. discriminate. }
    rewrite (get_or_init_slow_path fn c w Hm Hn), Hfn, Hv.
    eexists _, _. split; [reflexivity |]. repeat split.
    intros g w2 w3 v Hg.
    rewrite (get_or_init_slow_path g (OnceCell.mk None Uninitialized false) w2 eq_refl)
      by discriminate.
    rewrite Hg. eexists _, _. split; reflexivity.
  - intros W E o fn w w1 e Hm Hs Hfn.
    assert (Hn : OnceCall.state_ o <> Initialized) by congruence.
    rewrite (call_slow_path fn o w Hm Hn), Hfn.
    eexists _, _. split; [reflexivity |]. repeat split.
    intros g w2 w3 Hg.
    rewrite (call_slow_path g (OnceCall.mk Uninitialized false) w2 eq_refl)
      by discriminate.
    rewrite Hg. eexists _, _. split; reflexivity.
Qed.

(** An initializer that throws on its first invocation and returns 7 on
    every later one, on a fresh cell and on a fresh run-once action; the
    environment counts the invocations. *)
Lemma failed_initialization_can_be_retried_witness :
  let flaky : @InitFn nat unit Z :=
    fun attempts =>
      match attempts with
      | O => (Thrown tt, S attempts)
      | S _ => (Returned 7%Z, S attempts)
      end in
  let flaky_action : @InitFn nat unit unit :=
    fun attempts =>
      match attempts with
      | O => (Thrown tt, S attempts)
      | S _ => (Returned tt, S attempts)
      end in
  (exists c1 tr1 c2 tr2,
      OnceCell.get_or_init flaky OnceCell.ctor 0 = Throw tt c1 1 tr1
      /\ @OnceCell.is_initialized nat unit Z c1 1 = Ok false c1 1 []
      /\ OnceCell.get_or_init flaky c1 1 = Ok 7%Z c2 2 tr2
      /\ @OnceCell.is_initialized nat unit Z c2 2 = Ok true c2 2 [])
  /\ (exists o1 tr1 o2 tr2,
      OnceCall.call flaky_action OnceCall.ctor 0 = Throw tt o1 1 tr1
      /\ @OnceCall.is_initialized nat unit o1 1 = Ok false o1 1 []
      /\ OnceCall.call flaky_action o1 1 = Ok tt o2 2 tr2
      /\ @OnceCall.is_initialized nat unit o2 2 = Ok true o2 2 []).
Proof.
  intros flaky flaky_action.
  destruct failed_initialization_can_be_retried as [Hcell Hcall]. split.
  - destruct (Hcell nat unit Z OnceCell.ctor flaky 0 1 tt quiescent_ctor eq_refl eq_refl)
      as (c1 & tr1 & Hthrow & _ & _ & Hfalse & Hretry).
    destruct (Hretry flaky 1 2 7%Z eq_refl) as (c2 & tr2 & Hok & Htrue).
    exists c1, tr1, c2, tr2. auto.
  - destruct (Hcall nat unit OnceCall.ctor flaky_action 0 1 tt eq_refl eq_refl eq_refl)
      as (o1 & tr1 & Hthrow & _ & Hfalse & Hretry).
    destruct (Hretry flaky_action 1 2 eq_refl) as (o2 & tr2 & Hok & Htrue).
    exists o1, tr1, o2, tr2. auto.
Defined.

(** C4.  After any sequence of [get_or_init], [get], [try_get],
    [is_initialized] and [reset] on a freshly constructed cell (every prefix
    of a sequence being a sequence, this covers every boundary between two
    operations) no operation was undefined, and the slot holds a value
    exactly when the flag is [Initialized].  A [get_or_init] that throws
    from there writes no snapshot with a value in the slot, so the slot is
    empty all the way to, and after, the store of [Uninitialized]. *)
Theorem slot_nonempty_iff_initialized :
  forall (W E T : Type) (ops : list (OnceCell.Op W E T)) (w : W),
  exists c' w' tr,
    run (map OnceCell.perform ops) OnceCell.ctor w = Some (c', w', tr)
    /\ (OnceCell.value_ c' <> None <-> OnceCell.state_ c' = Initialized)
    /\ forall (fn : @InitFn W E T) (e : E) c2 w2 tr2,
        OnceCell.get_or_init fn c' w' = Throw e c2 w2 tr2 ->
        Forall (fun s => OnceCell.value_ s = None) (snapshots tr2)
        /\ OnceCell.value_ c2 = None
        /\ OnceCell.state_ c2 = Uninitialized.
Proof.
  intros W E T ops w.
  destruct (run_quiescent ops OnceCell.ctor w quiescent_ctor)
    as (c' & w' & tr & Hrun & Hm & Hinv).
  exists c', w', tr. split; [assumption |]. split; [exact Hinv |].
  intros fn e c2 w2 tr2.
  destruct (State_eqb (OnceCell.state_ c') Initialized) eqn:Hs.
  - apply State_eqb_eq in Hs. rewrite (get_or_init_fast_path fn c' w' Hs).
    destruct (OnceCell.value_ c'); discriminate.
  - apply State_eqb_neq in Hs. rewrite (get_or_init_slow_path fn c' w' Hm Hs).
    assert (Hv : OnceCell.value_ c' = None).
    { destruct (OnceCell.value_ c') eqn:Hv; [| reflexivity].
      exfalso. apply Hs, Hinv. rewrite Hv. discriminate. }
    rewrite Hv. destruct (fn w') as [[v | e'] w1]; [discriminate |].
    intros [= _ <- _ <-]. simpl. repeat constructor.
Qed.

(** A cell that is initialized, reset, and then given an initializer that
    throws. *)
Lemma slot_nonempty_iff_initialized_witness :
  let ops : list (OnceCell.Op unit unit Z) :=
    [OnceCell.OpGetOrInit (fun w => (Returned 77%Z, w)); OnceCell.OpGet; OnceCell.OpReset] in
  let failing : @InitFn unit unit Z := fun w => (Thrown tt, w) in
  exists c' tr c2 tr2,
    run (map OnceCell.perform ops) OnceCell.ctor tt = Some (c', tt, tr)
    /\ OnceCell.get_or_init failing c' tt = Throw tt c2 tt tr2
    /\ Forall (fun s => OnceCell.value_ s = None) (snapshots tr2)
    /\ OnceCell.value_ c2 = None
    /\ OnceCell.state_ c2 = Uninitialized.
Proof.
  intros ops failing.
  destruct (slot_nonempty_iff_initialized unit unit Z ops tt) as (c' & w' & tr & Hrun & _ & Hfail).
  injection Hrun as <- <- <-.
  eexists _, _, _, _. split; [reflexivity |]. split; [reflexivity |].
  eapply (Hfail failing tt). reflexivity.
Defined.

(** C6.  [get()] and [try_get()] of [OnceCell<T>] return with no event at
    all: no initializer is invoked and neither the cell nor the environment
    changes.  Between two calls the result is the address of the stored
    value when the flag is [Initialized] and [nullptr] otherwise, and
    [try_get()] is [get()].  Nothing is stated of [Lazy<T>::try_get()],
    which the claim also names: the source's body of it does not compile
    (see [Lazy]), so it has no behaviour to compare with the cell's. *)
Theorem get_and_try_get_only_peek :
  forall (W E T : Type) (c : OnceCell.t T) (w : W),
    OnceCell.slot_matches_state c ->
    (exists p,
        @OnceCell.get W E T c w = Ok p c w []
        /\ (OnceCell.state_ c = Initialized ->
            exists v, OnceCell.value_ c = Some v /\ p = address_of v)
        /\ (OnceCell.state_ c <> Initialized -> p = nullptr))
    /\ @OnceCell.try_get W E T c w = OnceCell.get c w
    /\ (exists p, @OnceCell.try_get W E T c w = Ok p c w []).
Proof.
  intros W E T c w Hinv. unfold OnceCell.slot_matches_state in Hinv.
  assert (Hget : exists p,
             @OnceCell.get W E T c w = Ok p c w []
             /\ (OnceCell.state_ c = Initialized ->
                 exists v, OnceCell.value_ c = Some v /\ p = address_of v)
             /\ (OnceCell.state_ c <> Initialized -> p = nullptr)).
  { rewrite get_spec.
    destruct (State_eqb (OnceCell.state_ c) Initialized) eqn:Hs.
    - apply State_eqb_eq in Hs.
      destruct (OnceCell.value_ c) as [v |] eqn:Hv.
      + exists (address_of v). split; [reflexivity |]. split.
        * intros _. exists v. auto.
        * congruence.
      + exfalso. apply Hinv in Hs. congruence.
    - apply State_eqb_neq in Hs. exists nullptr. split; [reflexivity |].
      split; [contradiction | reflexivity]. }
  split; [exact Hget |]. split; [reflexivity |].
  destruct Hget as (p & Hp & _). exists p. exact Hp.
Qed.

(** A cell initialized to 42 and a fresh one. *)
Lemma get_and_try_get_only_peek_witness :
  let full : OnceCell.t Z := OnceCell.mk (Some 42%Z) Initialized false in
  (OnceCell.slot_matches_state full
   /\ @OnceCell.get unit unit Z full tt = Ok (address_of 42%Z) full tt []
   /\ @OnceCell.try_get unit unit Z full tt = OnceCell.get full tt)
  /\ (OnceCell.slot_matches_state (@OnceCell.ctor Z)
      /\ @OnceCell.get unit unit Z OnceCell.ctor tt = Ok nullptr OnceCell.ctor tt []).
Proof.
  intros full.
  assert (Hfull : OnceCell.slot_matches_state full).
  { split; [reflexivity | discriminate]. }
  split.
  - split; [exact Hfull |].
    destruct (get_and_try_get_only_peek unit unit Z full tt Hfull)
      as ((p & Hget & Hinit & _) & Htry & _).
    split; [| exact Htry].
    destruct (Hinit eq_refl) as (v & [= <-] & ->). exact Hget.
  - split; [apply quiescent_ctor |].
    destruct (get_and_try_get_only_peek unit unit Z OnceCell.ctor tt (proj2 quiescent_ctor))
      as ((p & Hget & _ & Hnull) & _).
    rewrite <- (Hnull ltac:(discriminate)). exact Hget.
Defined.

(** ** Reset and the adapters *)

Section AdapterFacts.
Context {W E : Type}.

(** [Lazy<T>::get] is [cell_.get_or_init(init_fn_)]. *)
Lemma lazy_get_delegates {T : Type} (l : Lazy.t W E T) (w : W) :
  Lazy.get l w = Lazy.on_cell (OnceCell.get_or_init (Lazy.init_fn_ l)) l w.
Proof.
  unfold Lazy.get, bind, read. apply after_nil.
Qed.

(** With the mutex free and the flag not [Initialized], [call] and
    [get_or_init] are exactly one invocation of the initializer passed. *)
Lemma call_invokes_once (o : OnceCall.t) (fn : @InitFn W E unit) (w : W) :
  OnceCall.mtx_ o = false ->
  OnceCall.state_ o <> Initialized ->
  invoked_once (fun u => u) fn w (OnceCall.call fn o w).
Proof.
  intros Hm Hs. unfold invoked_once. rewrite (call_slow_path fn o w Hm Hs).
  destruct (fn w) as [[[] | e] w']; repeat split.
Qed.

Lemma get_or_init_invokes_once {T : Type} (c : OnceCell.t T) (fn : @InitFn W E T) (w : W) :
  OnceCell.mtx_ c = false ->
  OnceCell.state_ c <> Initialized ->
  invoked_once (fun v => v) fn w (OnceCell.get_or_init fn c w).
Proof.
  intros Hm Hs. unfold invoked_once. rewrite (get_or_init_slow_path fn c w Hm Hs).
  destruct (fn w) as [[v | e] w']; repeat split.
Qed.

Lemma lazy_get_invokes_once {T : Type} (l : Lazy.t W E T) (w : W) :
  OnceCell.mtx_ (Lazy.cell_ l) = false ->
  OnceCell.state_ (Lazy.cell_ l) <> Initialized ->
  invoked_once (fun v => v) (Lazy.init_fn_ l) w (Lazy.get l w).
Proof.
  intros Hm Hs. rewrite lazy_get_delegates.
  unfold invoked_once, Lazy.on_cell, on_member.
  rewrite (get_or_init_slow_path _ _ w Hm Hs).
  destruct (Lazy.init_fn_ l w) as [[v | e] w']; repeat split.
Qed.

Lemma lazy_void_get_invokes_once (l : LazyVoid.t W E) (w : W) :
  OnceCall.mtx_ (LazyVoid.once_ l) = false ->
  OnceCall.state_ (LazyVoid.once_ l) <> Initialized ->
  invoked_once (fun u => u) (LazyVoid.init_fn_ l) w (LazyVoid.get l w).
Proof.
  intros Hm Hs. rewrite lazy_void_get_delegates.
  unfold invoked_once, LazyVoid.on_once, on_member.
  rewrite (call_slow_path _ _ w Hm Hs).
  destruct (LazyVoid.init_fn_ l w) as [[[] | e] w']; repeat split.
Qed.

End AdapterFacts.

(** C7.  [reset()] on a primitive between two calls (initialized or not)
    returns normally, leaves [is_initialized()] false and, in a cell, the
    slot empty; the next [get_or_init] / [call] / [get] is then exactly one
    invocation of its initializer (the bound one, for an adapter) and yields
    what that invocation yields. *)
Theorem reset_allows_reinitialization :
  (forall (W E T : Type) (c : OnceCell.t T) (w : W),
      OnceCell.mtx_ c = false ->
      exists c0 tr0,
        @OnceCell.reset W E T c w = Ok tt c0 w tr0
        /\ @OnceCell.is_initialized W E T c0 w = Ok false c0 w []
        /\ OnceCell.value_ c0 = None
        /\ forall (fn : @InitFn W E T) (w2 : W),
            invoked_once (fun v => v) fn w2 (OnceCell.get_or_init fn c0 w2))
  /\ (forall (W E : Type) (o : OnceCall.t) (w : W),
      OnceCall.mtx_ o = false ->
      exists o0 tr0,
        @OnceCall.reset W E o w = Ok tt o0 w tr0
        /\ @OnceCall.is_initialized W E o0 w = Ok false o0 w []
        /\ forall (fn : @InitFn W E unit) (w2 : W),
            invoked_once (fun u => u) fn w2 (OnceCall.call fn o0 w2))
  /\ (forall (W E T : Type) (l : Lazy.t W E T) (w : W),
      OnceCell.mtx_ (Lazy.cell_ l) = false ->
      exists l0 tr0,
        Lazy.reset l w = Ok tt l0 w tr0
        /\ Lazy.is_initialized l0 w = Ok false l0 w []
        /\ OnceCell.value_ (Lazy.cell_ l0) = None
        /\ Lazy.init_fn_ l0 = Lazy.init_fn_ l
        /\ forall w2 : W,
            invoked_once (fun v => v) (Lazy.init_fn_ l) w2 (Lazy.get l0 w2))
  /\ (forall (W E : Type) (l : LazyVoid.t W E) (w : W),
      OnceCall.mtx_ (LazyVoid.once_ l) = false ->
      exists l0 tr0,
        LazyVoid.reset l w = Ok tt l0 w tr0
        /\ LazyVoid.is_initialized l0 w = Ok false l0 w []
        /\ LazyVoid.init_fn_ l0 = LazyVoid.init_fn_ l
        /\ forall w2 : W,
            invoked_once (fun u => u) (LazyVoid.init_fn_ l) w2 (LazyVoid.get l0 w2)).
Proof.
  repeat apply conj.
  - intros W E T c w Hm. rewrite (reset_spec c w Hm).
    eexists _, _. split; [reflexivity |]. repeat split.
    intros fn w2. apply get_or_init_invokes_once; [reflexivity | discriminate].
  - intros W E [s m] w Hm. simpl in Hm. subst m.
    eexists _, _. split; [reflexivity |]. split; [reflexivity |].
    intros fn w2. apply call_invokes_once; [reflexivity | discriminate].
  - intros W E T [c fn] w Hm. simpl in Hm.
    unfold Lazy.reset, Lazy.on_cell, on_member. simpl.
    rewrite (reset_spec c w Hm).
    eexists _, _. split; [reflexivity |]. repeat split.
    intros w2.
    apply (lazy_get_invokes_once (Lazy.mk (OnceCell.mk None Uninitialized false) fn));
      [reflexivity | discriminate].
  - intros W E [[s m] fn] w Hm. simpl in Hm. subst m.
    eexists _, _. split; [reflexivity |]. repeat split.
    intros w2.
    apply (lazy_void_get_invokes_once (LazyVoid.mk (OnceCall.mk Uninitialized false) fn));
      [reflexivity | discriminate].
Qed.

(** [test_once_cell_reset]: initialize to 77, reset, initialize again with
    an initializer that returns 88; and the counting initializer of
    [test_once_call], run again after a reset of the action and of the
    adapters. *)
Lemma reset_allows_reinitialization_witness :
  let first : @InitFn unit unit Z := fun w => (Returned 77%Z, w) in
  let second : @InitFn unit unit Z := fun w => (Returned 88%Z, w) in
  let done : OnceCall.t := OnceCall.mk Initialized false in
  (exists c1 tr1 c2 tr2 c3 tr3,
      OnceCell.get_or_init first OnceCell.ctor tt = Ok 77%Z c1 tt tr1
      /\ OnceCell.mtx_ c1 = false
      /\ @OnceCell.reset unit unit Z c1 tt = Ok tt c2 tt tr2
      /\ @OnceCell.is_initialized unit unit Z c2 tt = Ok false c2 tt []
      /\ OnceCell.get_or_init second c2 tt = Ok 88%Z c3 tt tr3
      /\ invocations tr3 = [Invoked true])
  /\ (OnceCall.mtx_ done = false
      /\ exists o0 tr0,
          @OnceCall.reset Z unit done 1%Z = Ok tt o0 1%Z tr0
          /\ @OnceCall.is_initialized Z unit o0 1%Z = Ok false o0 1%Z []
          /\ invoked_once (fun u => u) Scenarios.init_fn 1%Z
               (OnceCall.call (@Scenarios.init_fn unit) o0 1%Z))
  /\ (exists l0 tr0,
        Lazy.reset (Lazy.mk (OnceCell.mk (Some 77%Z) Initialized false) second) tt
        = Ok tt l0 tt tr0
        /\ Lazy.is_initialized l0 tt = Ok false l0 tt []
        /\ invoked_once (fun v => v) second tt (Lazy.get l0 tt))
  /\ (exists l0 tr0,
        LazyVoid.reset (LazyVoid.mk done (@Scenarios.init_fn unit)) 1%Z = Ok tt l0 1%Z tr0
        /\ LazyVoid.is_initialized l0 1%Z = Ok false l0 1%Z []
        /\ invoked_once (fun u => u) Scenarios.init_fn 1%Z (LazyVoid.get l0 1%Z)).
Proof.
  intros first second done.
  destruct reset_allows_reinitialization as (Hcell & Hcall & Hlazy & Hvoid).
  repeat apply conj.
  - destruct (Hcell unit unit Z (OnceCell.mk (Some 77%Z) Initialized false) tt eq_refl)
      as (c0 & tr0 & Hreset & Hfalse & _ & Hnext).
    specialize (Hnext second tt). unfold invoked_once in Hnext. simpl in Hnext.
    destruct (OnceCell.get_or_init second c0 tt) as [v c3 w3 tr3 | |] eqn:Hget;
      try contradiction.
    destruct Hnext as (-> & -> & Hinv).
    eexists _, _, c0, tr0, c3, tr3.
    split; [reflexivity |]. split; [reflexivity |]. auto.
  - reflexivity.
  - destruct (Hcall Z unit done 1%Z eq_refl) as (o0 & tr0 & Hreset & Hfalse & Hnext).
    exists o0, tr0. auto.
  - destruct (Hlazy unit unit Z
                (Lazy.mk (OnceCell.mk (Some 77%Z) Initialized false) second) tt eq_refl)
      as (l0 & tr0 & Hreset & Hfalse & _ & _ & Hnext).
    exists l0, tr0. auto.
  - destruct (Hvoid Z unit (LazyVoid.mk done Scenarios.init_fn) 1%Z eq_refl)
      as (l0 & tr0 & Hreset & Hfalse & _ & Hnext).
    exists l0, tr0. auto.
Defined.

Section LazinessFacts.
Context {W E : Type}.

(** The member functions of [Lazy<T>] other than the accesses, on an adapter
    that is not initialized: they return normally, invoke nothing, leave the
    environment alone and leave the adapter not initialized. *)
Lemma lazy_other_keeps_uninitialized {T : Type} (op : Lazy.Other)
    (l : Lazy.t W E T) (w : W) :
  OnceCell.mtx_ (Lazy.cell_ l) = false ->
  OnceCell.state_ (Lazy.cell_ l) <> Initialized ->
  exists l' tr,
    Lazy.perform_other op l w = Ok tt l' w tr
    /\ invocations tr = []
    /\ Lazy.init_fn_ l' = Lazy.init_fn_ l
    /\ OnceCell.mtx_ (Lazy.cell_ l') = false
    /\ OnceCell.state_ (Lazy.cell_ l') <> Initialized.
Proof.
  destruct l as [[slot s m] fn]. simpl. intros -> Hs.
  destruct op; simpl;
    unfold Lazy.operator_bool, Lazy.is_initialized, Lazy.reset,
      Lazy.on_cell, on_member, bind; simpl.
  - eexists _, _. split; [reflexivity |]. repeat split; assumption.
  - eexists _, _. split; [reflexivity |]. repeat split; discriminate.
  - eexists _, _. split; [reflexivity |]. repeat split; assumption.
Qed.

Lemma lazy_run_others {T : Type} (ops : list Lazy.Other) :
  forall (l : Lazy.t W E T) (w : W),
    OnceCell.mtx_ (Lazy.cell_ l) = false ->
    OnceCell.state_ (Lazy.cell_ l) <> Initialized ->
    exists l' tr,
      run (map Lazy.perform_other ops) l w = Some (l', w, tr)
      /\ invocations tr = []
      /\ Lazy.init_fn_ l' = Lazy.init_fn_ l
      /\ OnceCell.mtx_ (Lazy.cell_ l') = false
      /\ OnceCell.state_ (Lazy.cell_ l') <> Initialized.
Proof.
  induction ops as [| op ops IH]; intros l w Hm Hs.
  - exists l, []. auto.
  - simpl.
    destruct (lazy_other_keeps_uninitialized op l w Hm Hs)
      as (l1 & tr1 & Hop & Hinv1 & Hfn1 & Hm1 & Hs1).
    destruct (IH l1 w Hm1 Hs1) as (l2 & tr2 & Hrun & Hinv2 & Hfn2 & Hm2 & Hs2).
    rewrite Hop, Hrun. eexists _, _. split; [reflexivity |].
    split; [| split; [congruence | auto]].
    unfold invocations in *. rewrite filter_app, Hinv1, Hinv2. reflexivity.
Qed.

Lemma lazy_void_other_keeps_uninitialized (op : LazyVoid.Other)
    (l : LazyVoid.t W E) (w : W) :
  OnceCall.mtx_ (LazyVoid.once_ l) = false ->
  OnceCall.state_ (LazyVoid.once_ l) <> Initialized ->
  exists l' tr,
    LazyVoid.perform_other op l w = Ok tt l' w tr
    /\ invocations tr = []
    /\ LazyVoid.init_fn_ l' = LazyVoid.init_fn_ l
    /\ OnceCall.mtx_ (LazyVoid.once_ l') = false
    /\ OnceCall.state_ (LazyVoid.once_ l') <> Initialized.
Proof.
  destruct l as [[s m] fn]. simpl. intros -> Hs.
  destruct op; simpl.
  - eexists _, _. split; [reflexivity |]. repeat split; assumption.
  - eexists _, _. split; [reflexivity |]. repeat split; discriminate.
  - eexists _, _. split; [reflexivity |]. repeat split; assumption.
Qed.

Lemma lazy_void_run_others (ops : list LazyVoid.Other) :
  forall (l : LazyVoid.t W E) (w : W),
    OnceCall.mtx_ (LazyVoid.once_ l) = false ->
    OnceCall.state_ (LazyVoid.once_ l) <> Initialized ->
    exists l' tr,
      run (map LazyVoid.perform_other ops) l w = Some (l', w, tr)
      /\ invocations tr = []
      /\ LazyVoid.init_fn_ l' = LazyVoid.init_fn_ l
      /\ OnceCall.mtx_ (LazyVoid.once_ l') = false
      /\ OnceCall.state_ (LazyVoid.once_ l') <> Initialized.
Proof.
  induction ops as [| op ops IH]; intros l w Hm Hs.
  - exists l, []. auto.
  - simpl.
    destruct (lazy_void_other_keeps_uninitialized op l w Hm Hs)
      as (l1 & tr1 & Hop & Hinv1 & Hfn1 & Hm1 & Hs1).
    destruct (IH l1 w Hm1 Hs1) as (l2 & tr2 & Hrun & Hinv2 & Hfn2 & Hm2 & Hs2).
    rewrite Hop, Hrun. eexists _, _. split; [reflexivity |].
    split; [| split; [congruence | auto]].
    unfold invocations in *. rewrite filter_app, Hinv1, Hinv2. reflexivity.
Qed.

(** [operator->] of [Lazy<T>] is [&get()]. *)
Lemma lazy_arrow_invokes_once {T : Type} (l : Lazy.t W E T) (w : W) :
  invoked_once (fun v => v) (Lazy.init_fn_ l) w (Lazy.get l w) ->
  invoked_once address_of (Lazy.init_fn_ l) w (Lazy.operator_arrow l w).
Proof.
  unfold invoked_once, Lazy.operator_arrow, bind.
  destruct (Lazy.init_fn_ l w) as [[v | e] w'];
    destruct (Lazy.get l w) as [a l1 w1 tr | e' l1 w1 tr |]; simpl; auto.
  rewrite app_nil_r. intros (-> & -> & ->). auto.
Qed.

End LazinessFacts.

(** C8.  A freshly constructed [Lazy<T>] or [Lazy<void>] is not
    initialized; the constructor only stores the initializer.  Whatever
    member functions other than the accesses are then called, none invokes
    the initializer and the environment stays as it was at construction;
    the first access ([get], and for [Lazy<T>] also [operator*] and
    [operator->]) is then exactly one invocation of the bound initializer. *)
Theorem lazy_initializer_runs_at_first_access :
  (forall (W E T : Type) (fn : @InitFn W E T) (others : list Lazy.Other) (w : W),
      Lazy.is_initialized (Lazy.ctor fn) w = Ok false (Lazy.ctor fn) w []
      /\ exists l tr,
          run (map Lazy.perform_other others) (Lazy.ctor fn) w = Some (l, w, tr)
          /\ invocations tr = []
          /\ Lazy.init_fn_ l = fn
          /\ invoked_once (fun v => v) fn w (Lazy.get l w)
          /\ invoked_once (fun v => v) fn w (Lazy.operator_star l w)
          /\ invoked_once address_of fn w (Lazy.operator_arrow l w))
  /\ (forall (W E : Type) (fn : @InitFn W E unit) (others : list LazyVoid.Other) (w : W),
      LazyVoid.is_initialized (LazyVoid.ctor fn) w = Ok false (LazyVoid.ctor fn) w []
      /\ exists l tr,
          run (map LazyVoid.perform_other others) (LazyVoid.ctor fn) w = Some (l, w, tr)
          /\ invocations tr = []
          /\ LazyVoid.init_fn_ l = fn
          /\ invoked_once (fun u => u) fn w (LazyVoid.get l w)).
Proof.
  split.
  - intros W E T fn others w. split; [reflexivity |].
    destruct (lazy_run_others others (Lazy.ctor fn) w eq_refl ltac:(discriminate))
      as (l & tr & Hrun & Hinv & Hfn & Hm & Hs).
    simpl in Hfn. exists l, tr. repeat (split; [assumption |]).
    assert (Hget : invoked_once (fun v => v) fn w (Lazy.get l w)).
    { rewrite <- Hfn. apply lazy_get_invokes_once; assumption. }
    split; [exact Hget |]. split; [exact Hget |].
    rewrite <- Hfn in *. apply lazy_arrow_invokes_once. exact Hget.
  - intros W E fn others w. split; [reflexivity |].
    destruct (lazy_void_run_others others (LazyVoid.ctor fn) w eq_refl ltac:(discriminate))
      as (l & tr & Hrun & Hinv & Hfn & Hm & Hs).
    simpl in Hfn. exists l, tr. repeat (split; [assumption |]).
    rewrite <- Hfn. apply lazy_void_get_invokes_once; assumption.
Qed.

(** ** Direct dereference and the bool conversion *)

(** C9.  [operator*] and [operator->] of [OnceCell<T>], and their [const]
    overloads, read the slot and nothing else: whatever the flag and the
    mutex are, they return the stored value (its address, for [->]) with no
    event when the slot holds one, and are undefined when it is empty.
    Between two calls that makes them return the stored value when the cell
    is [Initialized] and undefined when it is not. *)
Theorem cell_dereference_needs_initialized :
  forall (W E T : Type) (c : OnceCell.t T) (w : W),
    (@OnceCell.operator_star W E T c w =
       match OnceCell.value_ c with Some v => Ok v c w [] | None => Undefined end
     /\ @OnceCell.operator_star_const W E T c w =
       match OnceCell.value_ c with Some v => Ok v c w [] | None => Undefined end
     /\ @OnceCell.operator_arrow W E T c w =
       match OnceCell.value_ c with
       | Some v => Ok (address_of v) c w []
       | None => Undefined
       end
     /\ @OnceCell.operator_arrow_const W E T c w =
       match OnceCell.value_ c with
       | Some v => Ok (address_of v) c w []
       | None => Undefined
       end)
    /\ (OnceCell.slot_matches_state c ->
        OnceCell.state_ c = Initialized ->
        exists v,
          OnceCell.value_ c = Some v
          /\ @OnceCell.operator_star W E T c w = Ok v c w []
          /\ @OnceCell.operator_star_const W E T c w = Ok v c w []
          /\ @OnceCell.operator_arrow W E T c w = Ok (address_of v) c w []
          /\ @OnceCell.operator_arrow_const W E T c w = Ok (address_of v) c w [])
    /\ (OnceCell.slot_matches_state c ->
        OnceCell.state_ c <> Initialized ->
        @OnceCell.operator_star W E T c w = Undefined
        /\ @OnceCell.operator_star_const W E T c w = Undefined
        /\ @OnceCell.operator_arrow W E T c w = Undefined
        /\ @OnceCell.operator_arrow_const W E T c w = Undefined).
Proof.
  intros W E T c w.
  assert (Hops :
    @OnceCell.operator_star W E T c w =
      match OnceCell.value_ c with Some v => Ok v c w [] | None => Undefined end
    /\ @OnceCell.operator_star_const W E T c w =
      match OnceCell.value_ c with Some v => Ok v c w [] | None => Undefined end
    /\ @OnceCell.operator_arrow W E T c w =
      match OnceCell.value_ c with
      | Some v => Ok (address_of v) c w []
      | None => Undefined
      end
    /\ @OnceCell.operator_arrow_const W E T c w =
      match OnceCell.value_ c with
      | Some v => Ok (address_of v) c w []
      | None => Undefined
      end).
  { exec_unfold. simpl. destruct (OnceCell.value_ c); repeat split. }
  split; [exact Hops |].
  destruct Hops as (Hstar & Hstar' & Harrow & Harrow').
  rewrite Hstar, Hstar', Harrow, Harrow'.
  unfold OnceCell.slot_matches_state. split.
  - intros Hinv Hs. destruct (OnceCell.value_ c) as [v |] eqn:Hv.
    + exists v. repeat split.
    + exfalso. apply Hinv in Hs. congruence.
  - intros Hinv Hs. destruct (OnceCell.value_ c) as [v |] eqn:Hv.
    + exfalso. apply Hs, Hinv. discriminate.
    + repeat split.
Qed.

(** [*cell] on the cell of [test_once_cell_single_thread] after its
    initialization, and on a fresh cell. *)
Lemma cell_dereference_needs_initialized_witness :
  let full : OnceCell.t Z := OnceCell.mk (Some 42%Z) Initialized false in
  (OnceCell.slot_matches_state full
   /\ OnceCell.state_ full = Initialized
   /\ @OnceCell.operator_star unit unit Z full tt = Ok 42%Z full tt [])
  /\ (OnceCell.slot_matches_state (@OnceCell.ctor Z)
      /\ OnceCell.state_ (@OnceCell.ctor Z) <> Initialized
      /\ @OnceCell.operator_star unit unit Z OnceCell.ctor tt = Undefined).
Proof.
  intros full.
  assert (Hfull : OnceCell.slot_matches_state full).
  { split; [reflexivity | discriminate]. }
  assert (Hfresh : OnceCell.state_ (@OnceCell.ctor Z) <> Initialized) by discriminate.
  split.
  - split; [exact Hfull |]. split; [reflexivity |].
    destruct (cell_dereference_needs_initialized unit unit Z full tt) as (_ & Hinit & _).
    destruct (Hinit Hfull eq_refl) as (v & [= <-] & Hstar & _). exact Hstar.
  - split; [apply quiescent_ctor |]. split; [exact Hfresh |].
    destruct (cell_dereference_needs_initialized unit unit Z OnceCell.ctor tt)
      as (_ & _ & Hnot).
    apply (Hnot (proj2 quiescent_ctor) Hfresh).
Defined.

(** C10.  The bool conversion of [Lazy<T>] and of [Lazy<void>] is
    [is_initialized()]: both give the same outcome, which is a normal
    return of whether the flag is [Initialized], with no event (nothing is
    invoked) and the adapter and the environment unchanged. *)
Theorem operator_bool_is_is_initialized :
  (forall (W E T : Type) (l : Lazy.t W E T) (w : W),
      Lazy.operator_bool l w = Lazy.is_initialized l w
      /\ exists b,
          Lazy.operator_bool l w = Ok b l w []
          /\ Lazy.is_initialized l w = Ok b l w []
          /\ (b = true <-> OnceCell.state_ (Lazy.cell_ l) = Initialized))
  /\ (forall (W E : Type) (l : LazyVoid.t W E) (w : W),
      LazyVoid.operator_bool l w = LazyVoid.is_initialized l w
      /\ exists b,
          LazyVoid.operator_bool l w = Ok b l w []
          /\ LazyVoid.is_initialized l w = Ok b l w []
          /\ (b = true <-> OnceCall.state_ (LazyVoid.once_ l) = Initialized)).
Proof.
  split.
  - intros W E T [c fn] w. split; [reflexivity |].
    exists (State_eqb (OnceCell.state_ c) Initialized).
    split; [reflexivity |]. split; [reflexivity |]. apply State_eqb_eq.
  - intros W E [o fn] w. split; [reflexivity |].
    exists (State_eqb (OnceCall.state_ o) Initialized).
    split; [reflexivity |]. split; [reflexivity |]. apply State_eqb_eq.
Qed.

(** * Further properties of the code *)

(** ** Retrying callers *)

Section RetryFacts.
Context {W E : Type}.

Lemma discard_spec {T A : Type} (m : @M W E (OnceCell.t T) A) (c : OnceCell.t T) (w : W) :
  OnceCell.discard m c w =
    match m c w with
    | Ok _ c' w' tr => Ok tt c' w' tr
    | Throw e c' w' tr => Throw e c' w' tr
    | Undefined => Undefined
    end.
Proof.
  unfold OnceCell.discard, bind, ret.
  destruct (m c w); simpl; try rewrite app_nil_r; reflexivity.
Qed.

Lemma invocations_app {O : Type} (tr1 tr2 : list (Event O)) :
  invocations (tr1 ++ tr2) = invocations tr1 ++ invocations tr2.
Proof. unfold invocations. apply filter_app. Qed.

(** On an initialized cell between two calls, further [get_or_init]s do
    nothing at all. *)
Lemma run_get_or_init_initialized {T : Type} (fns : list (@InitFn W E T)) :
  forall (v : T) (w : W),
    run (map OnceCell.perform (map OnceCell.OpGetOrInit fns))
        (OnceCell.mk (Some v) Initialized false) w
    = Some (OnceCell.mk (Some v) Initialized false, w, []).
Proof.
  induction fns as [| fn fns IH]; intros v w; [reflexivity |].
  cbn [map run OnceCell.perform].
  rewrite discard_spec, get_or_init_fast_path by reflexivity.
  cbn [OnceCell.value_]. rewrite IH. reflexivity.
Qed.

Lemma run_call_initialized (fns : list (@InitFn W E unit)) :
  forall w : W,
    run (map OnceCall.call fns) (OnceCall.mk Initialized false) w
    = Some (OnceCall.mk Initialized false, w, []).
Proof.
  induction fns as [| fn fns IH]; intros w; [reflexivity |].
  cbn [map run]. rewrite call_fast_path by reflexivity. rewrite IH. reflexivity.
Qed.

End RetryFacts.

(** X1.  [get_or_init] called with the initializers [fns] in turn on a
    fresh cell behaves as a caller that retries until the first initializer
    returns: exactly the invocations of [first_success] are made, in that
    order, the environment ends as they leave it, and the cell ends holding
    the first returned value with the flag [Initialized], or as constructed
    when every initializer threw. *)
Theorem get_or_init_retries_until_first_success :
  forall (W E T : Type) (fns : list (@InitFn W E T)) (w w' : W)
         (flags : list bool) (r : option T),
    Caller.first_success fns w = (flags, r, w') ->
    exists tr,
      run (map OnceCell.perform (map OnceCell.OpGetOrInit fns)) OnceCell.ctor w
      = Some (match r with
              | Some v => OnceCell.mk (Some v) Initialized false
              | None => OnceCell.ctor
              end, w', tr)
      /\ invocations tr = map Invoked flags.
Proof.
  intros W E T fns. induction fns as [| fn fns IH]; intros w w' flags r Hfs.
  - injection Hfs as <- <- <-. exists []. split; reflexivity.
  - simpl in Hfs. cbn [map run OnceCell.perform].
    rewrite discard_spec.
    rewrite (get_or_init_slow_path fn OnceCell.ctor w eq_refl) by discriminate.
    destruct (fn w) as [[v | e] w1].
    + injection Hfs as <- <- <-.
      rewrite run_get_or_init_initialized. eexists. split; reflexivity.
    + destruct (Caller.first_success fns w1) as [[flags1 r1] w2] eqn:Hrest.
      injection Hfs as <- <- <-.
      destruct (IH w1 w2 flags1 r1 Hrest) as (tr & Hrun & Hinv).
      change (OnceCell.mk (OnceCell.value_ (@OnceCell.ctor T)) Uninitialized false)
        with (@OnceCell.ctor T).
      rewrite Hrun. eexists. split; [reflexivity |].
      rewrite invocations_app, Hinv. reflexivity.
Qed.

(** Two initializers that throw, then one that returns 7, then one that
    would return 8: three invocations, the cell holds 7, and the
    environment has counted three attempts. *)
Lemma get_or_init_retries_until_first_success_witness :
  let failing : @InitFn nat unit Z := fun n => (Thrown tt, S n) in
  let seven : @InitFn nat unit Z := fun n => (Returned 7%Z, S n) in
  let eight : @InitFn nat unit Z := fun n => (Returned 8%Z, S n) in
  Caller.first_success [failing; failing; seven; eight] 0
  = ([false; false; true], Some 7%Z, 3)
  /\ exists tr,
      run (map OnceCell.perform
             (map OnceCell.OpGetOrInit [failing; failing; seven; eight]))
          OnceCell.ctor 0
      = Some (OnceCell.mk (Some 7%Z) Initialized false, 3, tr)
      /\ invocations tr = [Invoked false; Invoked false; Invoked true].
Proof.
  intros failing seven eight. split; [reflexivity |].
  apply (get_or_init_retries_until_first_success
           nat unit Z [failing; failing; seven; eight] 0 3
           [false; false; true] (Some 7%Z)).
  reflexivity.
Defined.

(** X2.  The same for [OnceCall::call]: the calls invoke their initializers
    in turn until the first one returns and none after it; the action ends
    [Initialized] when one returned and as constructed otherwise. *)
Theorem call_retries_until_first_success :
  forall (W E : Type) (fns : list (@InitFn W E unit)) (w w' : W)
         (flags : list bool) (r : option unit),
    Caller.first_success fns w = (flags, r, w') ->
    exists tr,
      run (map OnceCall.call fns) OnceCall.ctor w
      = Some (match r with
              | Some _ => OnceCall.mk Initialized false
              | None => OnceCall.ctor
              end, w', tr)
      /\ invocations tr = map Invoked flags.
Proof.
  intros W E fns. induction fns as [| fn fns IH]; intros w w' flags r Hfs.
  - injection Hfs as <- <- <-. exists []. split; reflexivity.
  - simpl in Hfs. cbn [map run].
    rewrite (call_slow_path fn OnceCall.ctor w eq_refl) by discriminate.
    destruct (fn w) as [[u | e] w1].
    + injection Hfs as <- <- <-.
      rewrite run_call_initialized. eexists. split; reflexivity.
    + destruct (Caller.first_success fns w1) as [[flags1 r1] w2] eqn:Hrest.
      injection Hfs as <- <- <-.
      destruct (IH w1 w2 flags1 r1 Hrest) as (tr & Hrun & Hinv).
      change (OnceCall.mk Uninitialized false) with OnceCall.ctor.
      rewrite Hrun. eexists. split; [reflexivity |].
      rewrite invocations_app, Hinv. reflexivity.
Qed.

(** An action that throws on its first two attempts. *)
Lemma call_retries_until_first_success_witness :
  let failing : @InitFn nat unit unit := fun n => (Thrown tt, S n) in
  let counting : @InitFn nat unit unit := fun n => (Returned tt, S n) in
  Caller.first_success [failing; failing; counting; counting] 0
  = ([false; false; true], Some tt, 3)
  /\ exists tr,
      run (map OnceCall.call [failing; failing; counting; counting]) OnceCall.ctor 0
      = Some (OnceCall.mk Initialized false, 3, tr)
      /\ invocations tr = [Invoked false; Invoked false; Invoked true].
Proof.
  intros failing counting. split; [reflexivity |].
  apply (call_retries_until_first_success
           nat unit [failing; failing; counting; counting] 0 3
           [false; false; true] (Some tt)).
  reflexivity.
Defined.

(** ** Any order of operations *)

Section OrderFacts.
Context {W E : Type}.

(** One operation on a [OnceCall] between two calls: it is defined, it
    leaves the mutex free and the flag settled, and it adds a successful
    invocation only when the flag was not [Initialized]. *)
Lemma perform_call_op_settles (op : Caller.CallOp W E) (o : OnceCall.t) (w : W) :
  OnceCall.mtx_ o = false ->
  OnceCall.state_ o <> Initializing ->
  exists o' w' tr,
    (Caller.perform_call_op op o w = Ok tt o' w' tr
     \/ exists e, Caller.perform_call_op op o w = Throw e o' w' tr)
    /\ OnceCall.mtx_ o' = false
    /\ OnceCall.state_ o' <> Initializing
    /\ successes tr <= (if State_eqb (OnceCall.state_ o) Initialized then 0 else 1)
    /\ (Caller.is_call_reset op = false ->
        OnceCall.state_ o = Initialized -> OnceCall.state_ o' = Initialized)
    /\ (successes tr = 1 -> OnceCall.state_ o' = Initialized).
Proof.
  destruct o as [s m]. simpl. intros -> Hs.
  assert (Hzero : forall b : bool, 0 <= (if b then 0 else 1))
    by (intros [|]; lia).
  destruct op as [fn | |]; simpl.
  - destruct (State_eqb s Initialized) eqn:Hb.
    + apply State_eqb_eq in Hb. subst s.
      rewrite call_fast_path by reflexivity.
      eexists _, _, _. split; [left; reflexivity |]. simpl.
      repeat split; auto; try discriminate.
    + apply State_eqb_neq in Hb.
      rewrite (call_slow_path fn (OnceCall.mk s false) w eq_refl Hb).
      destruct (fn w) as [[u | e] w1].
      * eexists _, _, _. split; [left; reflexivity |]. simpl.
        repeat split; auto; try discriminate.
      * eexists _, _, _. split; [right; exists e; reflexivity |]. simpl.
        repeat split; auto; try discriminate; try (intros; congruence).
  - eexists _, _, _. split; [left; reflexivity |]. simpl.
    repeat split; auto; try discriminate; apply Hzero.
  - eexists _, _, _. split; [left; reflexivity |]. simpl.
    repeat split; auto; try discriminate; apply Hzero.
Qed.

Lemma run_call_ops_settle (ops : list (Caller.CallOp W E)) :
  forall (o : OnceCall.t) (w : W),
    OnceCall.mtx_ o = false ->
    OnceCall.state_ o <> Initializing ->
    exists o' w' tr,
      run (map Caller.perform_call_op ops) o w = Some (o', w', tr)
      /\ OnceCall.mtx_ o' = false
      /\ OnceCall.state_ o' <> Initializing
      /\ successes tr
         <= Caller.call_resets ops
            + (if State_eqb (OnceCall.state_ o) Initialized then 0 else 1).
Proof.
  induction ops as [| op ops IH]; intros o w Hm Hs.
  - exists o, w, []. cbn. repeat split; auto. destruct (State_eqb _ _); lia.
  - cbn [map run].
    destruct (perform_call_op_settles op o w Hm Hs)
      as (o1 & w1 & tr1 & Hop & Hm1 & Hs1 & Hle1 & Hkeep & Hone).
    destruct (IH o1 w1 Hm1 Hs1) as (o2 & w2 & tr2 & Hrun & Hm2 & Hs2 & Hle2).
    assert (Hout : run (map Caller.perform_call_op (op :: ops)) o w
                   = Some (o2, w2, tr1 ++ tr2)).
    { cbn [map run]. destruct Hop as [Hop | [e Hop]]; rewrite Hop, Hrun; reflexivity. }
    cbn [map run] in Hout. rewrite Hout. eexists _, _, _.
    split; [reflexivity |]. split; [assumption |]. split; [assumption |].
    rewrite successes_app. unfold Caller.call_resets in *. cbn [filter].
    destruct (Caller.is_call_reset op) eqn:Hr; cbn [length].
    + destruct (State_eqb (OnceCall.state_ o1) Initialized);
        destruct (State_eqb (OnceCall.state_ o) Initialized); lia.
    + destruct (State_eqb (OnceCall.state_ o) Initialized) eqn:Hb.
      * apply State_eqb_eq in Hb. rewrite (Hkeep eq_refl Hb) in Hle2.
        cbn in Hle2. lia.
      * destruct (State_eqb (OnceCall.state_ o1) Initialized) eqn:Hb1; [lia |].
        assert (successes tr1 = 0).
        { destruct (successes tr1) as [| [| n]] eqn:Hn; [reflexivity | | lia].
          apply State_eqb_neq in Hb1. exfalso. apply Hb1, Hone. reflexivity. }
        lia.
Qed.

End OrderFacts.

Section CellOrderFacts.
Context {W E T : Type}.

Lemma perform_settles (op : OnceCell.Op W E T) (c : OnceCell.t T) (w : W) :
  OnceCell.quiescent c ->
  OnceCell.state_ c <> Initializing ->
  exists c' w' tr,
    (OnceCell.perform op c w = Ok tt c' w' tr
     \/ exists e, OnceCell.perform op c w = Throw e c' w' tr)
    /\ OnceCell.quiescent c'
    /\ OnceCell.state_ c' <> Initializing
    /\ successes tr <= (if State_eqb (OnceCell.state_ c) Initialized then 0 else 1)
    /\ (Caller.is_cell_reset op = false ->
        OnceCell.state_ c = Initialized -> OnceCell.state_ c' = Initialized)
    /\ (successes tr = 1 -> OnceCell.state_ c' = Initialized).
Proof.
  intros [Hm Hslot] Hs. pose proof Hslot as Hinv.
  unfold OnceCell.slot_matches_state in Hinv.
  assert (Hzero : forall b : bool, 0 <= (if b then 0 else 1))
    by (intros [|]; lia).
  assert (Hq : forall slot s, (slot <> None <-> s = Initialized) ->
                              OnceCell.quiescent (@OnceCell.mk T slot s false)).
  { intros slot s H. split; [reflexivity | exact H]. }
  assert (Hsame : forall A (m : @M W E (OnceCell.t T) A) a,
             m c w = Ok a c w [] ->
             exists c' w' tr,
               (OnceCell.discard m c w = Ok tt c' w' tr
                \/ exists e, OnceCell.discard m c w = Throw e c' w' tr)
               /\ OnceCell.quiescent c'
               /\ OnceCell.state_ c' <> Initializing
               /\ successes tr <= (if State_eqb (OnceCell.state_ c) Initialized then 0 else 1)
               /\ (OnceCell.state_ c = Initialized -> OnceCell.state_ c' = Initialized)
               /\ (successes tr = 1 -> OnceCell.state_ c' = Initialized)).
  { intros A m a Hma. exists c, w, []. rewrite discard_spec, Hma.
    split; [left; reflexivity |]. split; [split; assumption |].
    split; [assumption |]. split; [apply Hzero |]. split; [auto | discriminate]. }
  assert (Hget : exists p, @OnceCell.get W E T c w = Ok p c w []).
  { rewrite get_spec.
    destruct (State_eqb (OnceCell.state_ c) Initialized) eqn:Hb; [| eauto].
    apply State_eqb_eq in Hb.
    destruct (OnceCell.value_ c) eqn:Hv; [eauto |].
    exfalso. apply Hinv in Hb. congruence. }
  destruct op as [fn | | | |]; cbn [OnceCell.perform Caller.is_cell_reset].
  - rewrite discard_spec.
    destruct (State_eqb (OnceCell.state_ c) Initialized) eqn:Hb.
    + apply State_eqb_eq in Hb. rewrite (get_or_init_fast_path fn c w Hb).
      destruct (OnceCell.value_ c) as [v |] eqn:Hv.
      * exists c, w, []. split; [left; reflexivity |].
        split; [split; assumption |]. split; [assumption |].
        split; [apply Nat.le_refl |]. split; [auto | discriminate].
      * exfalso. apply Hinv in Hb. congruence.
    + apply State_eqb_neq in Hb. rewrite (get_or_init_slow_path fn c w Hm Hb).
      destruct (fn w) as [[v | e] w1].
      * eexists _, _, _. split; [left; reflexivity |].
        split; [apply Hq; split; congruence |]. split; [discriminate |].
        split; [cbn; lia |]. split; auto.
      * eexists _, _, _. split; [right; exists e; reflexivity |].
        split; [apply Hq; split; [| discriminate];
                intros Hv; apply Hinv in Hv; contradiction |].
        split; [discriminate |]. split; [cbn; lia |].
        split; [intros _ Hi; contradiction | discriminate].
  - destruct Hget as (p & Hp).
    destruct (Hsame _ OnceCell.get p Hp) as (c' & w' & tr & H1 & H2 & H3 & H4 & H5 & H6).
    exists c', w', tr. auto 10.
  - destruct Hget as (p & Hp). rewrite <- try_get_is_get in Hp.
    destruct (Hsame _ OnceCell.try_get p Hp) as (c' & w' & tr & H1 & H2 & H3 & H4 & H5 & H6).
    exists c', w', tr. auto 10.
  - destruct (Hsame _ OnceCell.is_initialized _ (is_initialized_spec c w))
      as (c' & w' & tr & H1 & H2 & H3 & H4 & H5 & H6).
    exists c', w', tr. auto 10.
  - rewrite (reset_spec c w Hm). eexists _, _, _.
    split; [left; reflexivity |].
    split; [apply Hq; split; [congruence | discriminate] |].
    split; [discriminate |]. split; [apply Hzero |].
    split; discriminate.
Qed.

Lemma run_ops_settle (ops : list (OnceCell.Op W E T)) :
  forall (c : OnceCell.t T) (w : W),
    OnceCell.quiescent c ->
    OnceCell.state_ c <> Initializing ->
    exists c' w' tr,
      run (map OnceCell.perform ops) c w = Some (c', w', tr)
      /\ OnceCell.quiescent c'
      /\ OnceCell.state_ c' <> Initializing
      /\ successes tr
         <= Caller.cell_resets ops
            + (if State_eqb (OnceCell.state_ c) Initialized then 0 else 1).
Proof.
  induction ops as [| op ops IH]; intros c w Hq Hs.
  - exists c, w, []. cbn. repeat split; try apply Hq; auto.
    destruct (State_eqb _ _); lia.
  - destruct (perform_settles op c w Hq Hs)
      as (c1 & w1 & tr1 & Hop & Hq1 & Hs1 & Hle1 & Hkeep & Hone).
    destruct (IH c1 w1 Hq1 Hs1) as (c2 & w2 & tr2 & Hrun & Hq2 & Hs2 & Hle2).
    assert (Hout : run (map OnceCell.perform (op :: ops)) c w
                   = Some (c2, w2, tr1 ++ tr2)).
    { cbn [map run]. destruct Hop as [Hop | [e Hop]]; rewrite Hop, Hrun; reflexivity. }
    rewrite Hout. eexists _, _, _.
    split; [reflexivity |]. split; [assumption |]. split; [assumption |].
    rewrite successes_app. unfold Caller.cell_resets in *. cbn [filter].
    destruct (Caller.is_cell_reset op) eqn:Hr; cbn [length].
    + destruct (State_eqb (OnceCell.state_ c1) Initialized);
        destruct (State_eqb (OnceCell.state_ c) Initialized); lia.
    + destruct (State_eqb (OnceCell.state_ c) Initialized) eqn:Hb.
      * apply State_eqb_eq in Hb. rewrite (Hkeep eq_refl Hb) in Hle2.
        cbn in Hle2. lia.
      * destruct (State_eqb (OnceCell.state_ c1) Initialized) eqn:Hb1; [lia |].
        assert (successes tr1 = 0).
        { destruct (successes tr1) as [| [| n]] eqn:Hn; [reflexivity | | lia].
          apply State_eqb_neq in Hb1. exfalso. apply Hb1, Hone. reflexivity. }
        lia.
Qed.

End CellOrderFacts.

(** X3.  Whatever [call]s, [reset]s and [is_initialized]s are made on a
    [OnceCall] after its construction, in any order and whichever
    initializers throw: no operation is undefined, the mutex is free again
    after the last one, the flag is never left [Initializing], and the
    number of successful invocations is at most one more than the number of
    resets. *)
Theorem once_call_succeeds_once_per_reset :
  forall (W E : Type) (ops : list (Caller.CallOp W E)) (w : W),
  exists o' w' tr,
    run (map Caller.perform_call_op ops) OnceCall.ctor w = Some (o', w', tr)
    /\ OnceCall.mtx_ o' = false
    /\ OnceCall.state_ o' <> Initializing
    /\ successes tr <= S (Caller.call_resets ops).
Proof.
  intros W E ops w.
  destruct (run_call_ops_settle ops OnceCall.ctor w eq_refl ltac:(discriminate))
    as (o' & w' & tr & Hrun & Hm & Hs & Hle).
  exists o', w', tr. cbn in Hle. repeat split; auto. lia.
Qed.

(** X4.  The same for a cell: after any sequence of [get_or_init], [get],
    [try_get], [is_initialized] and [reset] on a freshly constructed cell
    the mutex is free, the flag is not [Initializing], and the initializers
    have returned at most once more than [reset] was called. *)
Theorem once_cell_succeeds_once_per_reset :
  forall (W E T : Type) (ops : list (OnceCell.Op W E T)) (w : W),
  exists c' w' tr,
    run (map OnceCell.perform ops) OnceCell.ctor w = Some (c', w', tr)
    /\ OnceCell.mtx_ c' = false
    /\ OnceCell.state_ c' <> Initializing
    /\ successes tr <= S (Caller.cell_resets ops).
Proof.
  intros W E T ops w.
  destruct (run_ops_settle ops OnceCell.ctor w quiescent_ctor ltac:(discriminate))
    as (c' & w' & tr & Hrun & [Hm _] & Hs & Hle).
  exists c', w', tr. cbn in Hle. repeat split; auto. lia.
Qed.

(** ** The value adapter *)

Section LazyAccessFacts.
Context {W E T : Type}.

Lemma invocations_lift {O P : Type} (put : P -> O) (tr : list (Event P)) :
  invocations (map (lift_event put) tr) = map (lift_event put) (invocations tr).
Proof.
  unfold invocations. induction tr as [| [b | p] tr IH]; simpl; auto.
  now rewrite IH.
Qed.

Lemma lift_invoked {O P : Type} (put : P -> O) (flags : list bool) :
  map (lift_event put) (map Invoked flags) = map Invoked flags.
Proof. induction flags as [| b flags IH]; simpl; [| rewrite IH]; reflexivity. Qed.

(** The three accesses differ in what they return only: each is
    [cell_.get_or_init(init_fn_)] as far as the adapter, the environment
    and the trace go. *)
Lemma perform_access_spec (a : Caller.Access) (l : Lazy.t W E T) (w : W) :
  Caller.perform_access a l w =
    match OnceCell.get_or_init (Lazy.init_fn_ l) (Lazy.cell_ l) w with
    | Ok _ c' w' tr =>
        Ok tt (Lazy.mk c' (Lazy.init_fn_ l)) w'
           (map (lift_event (fun q => Lazy.mk q (Lazy.init_fn_ l))) tr)
    | Throw e c' w' tr =>
        Throw e (Lazy.mk c' (Lazy.init_fn_ l)) w'
           (map (lift_event (fun q => Lazy.mk q (Lazy.init_fn_ l))) tr)
    | Undefined => Undefined
    end.
Proof.
  destruct a; cbn [Caller.perform_access];
    unfold Lazy.operator_arrow, Lazy.operator_star, bind at 1;
    try unfold bind at 1;
    rewrite lazy_get_delegates; unfold Lazy.on_cell, on_member;
    destruct (OnceCell.get_or_init (Lazy.init_fn_ l) (Lazy.cell_ l) w);
    cbn; rewrite ?app_nil_r; reflexivity.
Qed.

Lemma run_accesses_initialized (accs : list Caller.Access) :
  forall (fn : @InitFn W E T) (v : T) (w : W),
    run (map Caller.perform_access accs)
        (Lazy.mk (OnceCell.mk (Some v) Initialized false) fn) w
    = Some (Lazy.mk (OnceCell.mk (Some v) Initialized false) fn, w, []).
Proof.
  induction accs as [| a accs IH]; intros fn v w; [reflexivity |].
  cbn [map run]. rewrite perform_access_spec. cbn [Lazy.cell_ Lazy.init_fn_].
  rewrite get_or_init_fast_path by reflexivity.
  cbn [OnceCell.value_ map]. rewrite IH. reflexivity.
Qed.

End LazyAccessFacts.

(** X5.  Accesses to a freshly constructed [Lazy<T>] ([get()], [*x], [x->],
    in any mix) retry the bound initializer until it first returns and never
    run it again: the invocations are those of [first_success] on as many
    copies of the initializer as there are accesses, the environment ends as
    they leave it, and the adapter ends holding the returned value, or as
    constructed when every attempt threw. *)
Theorem lazy_accesses_retry_until_first_success :
  forall (W E T : Type) (fn : @InitFn W E T) (accs : list Caller.Access)
         (w w' : W) (flags : list bool) (r : option T),
    Caller.first_success (repeat fn (length accs)) w = (flags, r, w') ->
    exists tr,
      run (map Caller.perform_access accs) (Lazy.ctor fn) w
      = Some (Lazy.mk (match r with
                       | Some v => OnceCell.mk (Some v) Initialized false
                       | None => OnceCell.ctor
                       end) fn, w', tr)
      /\ invocations tr = map Invoked flags.
Proof.
  intros W E T fn accs. induction accs as [| a accs IH]; intros w w' flags r Hfs.
  - injection Hfs as <- <- <-. exists []. split; reflexivity.
  - cbn [length repeat Caller.first_success] in Hfs. cbn [map run].
    rewrite perform_access_spec. cbn [Lazy.ctor Lazy.cell_ Lazy.init_fn_].
    rewrite (get_or_init_slow_path fn OnceCell.ctor w eq_refl) by discriminate.
    destruct (fn w) as [[v | e] w1].
    + injection Hfs as <- <- <-.
      rewrite run_accesses_initialized. eexists. split; reflexivity.
    + destruct (Caller.first_success (repeat fn (length accs)) w1)
        as [[flags1 r1] w2] eqn:Hrest.
      injection Hfs as <- <- <-.
      destruct (IH w1 w2 flags1 r1 Hrest) as (tr & Hrun & Hinv).
      change (Lazy.mk (OnceCell.mk (OnceCell.value_ (@OnceCell.ctor T)) Uninitialized false) fn)
        with (Lazy.ctor fn).
      rewrite Hrun. eexists. split; [reflexivity |].
      rewrite invocations_app, Hinv. reflexivity.
Qed.

(** [test_lazy_initialization]: the initializer counts its invocations and
    returns 42; after [*lazy_value] three times the count is 1. *)
Lemma lazy_accesses_retry_until_first_success_witness :
  let initializer : @InitFn Z unit Z := fun count => (Returned 42%Z, (count + 1)%Z) in
  exists tr,
    run (map Caller.perform_access [Caller.AccessStar; Caller.AccessStar; Caller.AccessStar])
        (Lazy.ctor initializer) 0%Z
    = Some (Lazy.mk (OnceCell.mk (Some 42%Z) Initialized false) initializer, 1%Z, tr)
    /\ invocations tr = [Invoked true].
Proof.
  intros initializer.
  apply (lazy_accesses_retry_until_first_success
           Z unit Z initializer
           [Caller.AccessStar; Caller.AccessStar; Caller.AccessStar]
           0%Z 1%Z [true] (Some 42%Z)).
  reflexivity.
Defined.

(** ** What is stored is what is read *)

(** X6.  Once [get_or_init] has returned [v] on a cell whose mutex was
    free, every way of reading the cell gives [v] and changes nothing:
    [get()], [try_get()] and [operator->] give its address, [operator*]
    gives [v].  After a [reset()] the same cell gives [nullptr] from
    [get()] and [try_get()], and [operator*] and [operator->] are
    undefined. *)
Theorem cell_reads_what_get_or_init_returned :
  forall (W E T : Type) (c c1 : OnceCell.t T) (fn : @InitFn W E T)
         (w w1 : W) (v : T) (tr1 : list (Event (OnceCell.t T))),
    OnceCell.mtx_ c = false ->
    OnceCell.get_or_init fn c w = Ok v c1 w1 tr1 ->
    forall w2 : W,
      (@OnceCell.get W E T c1 w2 = Ok (address_of v) c1 w2 []
       /\ @OnceCell.try_get W E T c1 w2 = Ok (address_of v) c1 w2 []
       /\ @OnceCell.operator_star W E T c1 w2 = Ok v c1 w2 []
       /\ @OnceCell.operator_arrow W E T c1 w2 = Ok (address_of v) c1 w2 [])
      /\ exists c2 tr2,
          @OnceCell.reset W E T c1 w2 = Ok tt c2 w2 tr2
          /\ @OnceCell.get W E T c2 w2 = Ok nullptr c2 w2 []
          /\ @OnceCell.try_get W E T c2 w2 = Ok nullptr c2 w2 []
          /\ @OnceCell.operator_star W E T c2 w2 = Undefined
          /\ @OnceCell.operator_arrow W E T c2 w2 = Undefined.
Proof.
  intros W E T c c1 fn w w1 v tr1 Hm Hret w2.
  assert (Hm1 : OnceCell.mtx_ c1 = false).
  { destruct (State_eqb (OnceCell.state_ c) Initialized) eqn:Hb.
    - apply State_eqb_eq in Hb. rewrite (get_or_init_fast_path fn c w Hb) in Hret.
      destruct (OnceCell.value_ c); [| discriminate].
      injection Hret as _ <- _ _. exact Hm.
    - apply State_eqb_neq in Hb. rewrite (get_or_init_slow_path fn c w Hm Hb) in Hret.
      destruct (fn w) as [[v' | e] w']; [| discriminate].
      injection Hret as _ <- _ _. reflexivity. }
  apply get_or_init_returns in Hret as [Hs Hv].
  destruct c1 as [slot s m]. simpl in *. subst slot s m.
  split; [repeat split |].
  eexists _, _. split; [reflexivity |]. repeat split.
Qed.

(** [test_once_cell_single_thread] reads [*cell == 42] after its two
    [get_or_init]s. *)
Lemma cell_reads_what_get_or_init_returned_witness :
  let first : @InitFn unit unit Z := fun w => (Returned 42%Z, w) in
  let full : OnceCell.t Z := OnceCell.mk (Some 42%Z) Initialized false in
  OnceCell.mtx_ (@OnceCell.ctor Z) = false
  /\ (exists tr1, OnceCell.get_or_init first OnceCell.ctor tt = Ok 42%Z full tt tr1)
  /\ @OnceCell.operator_star unit unit Z full tt = Ok 42%Z full tt []
  /\ @OnceCell.get unit unit Z full tt = Ok (address_of 42%Z) full tt [].
Proof.
  intros first full. split; [reflexivity |]. split; [eexists; reflexivity |].
  destruct (cell_reads_what_get_or_init_returned
              unit unit Z OnceCell.ctor full first tt tt 42%Z _ eq_refl eq_refl tt)
    as ((Hget & _ & Hstar & _) & _).
  split; assumption.
Defined.

(** X7.  Once [Lazy<T>::get()] has returned [v] on an adapter whose cell's
    mutex was free, [get()] and [operator*] return [v], [operator->]
    returns its address, [is_initialized()] and the bool conversion return
    true, all without an event; after [reset()] the slot is empty,
    [is_initialized()] and the bool conversion return false, and the bound
    initializer is still the one given to the constructor. *)
Theorem lazy_reads_what_get_returned :
  forall (W E T : Type) (l l1 : Lazy.t W E T) (w w1 : W) (v : T)
         (tr1 : list (Event (Lazy.t W E T))),
    OnceCell.mtx_ (Lazy.cell_ l) = false ->
    Lazy.get l w = Ok v l1 w1 tr1 ->
    forall w2 : W,
      (Lazy.get l1 w2 = Ok v l1 w2 []
       /\ Lazy.operator_star l1 w2 = Ok v l1 w2 []
       /\ Lazy.operator_arrow l1 w2 = Ok (address_of v) l1 w2 []
       /\ Lazy.is_initialized l1 w2 = Ok true l1 w2 []
       /\ Lazy.operator_bool l1 w2 = Ok true l1 w2 [])
      /\ exists l2 tr2,
          Lazy.reset l1 w2 = Ok tt l2 w2 tr2
          /\ OnceCell.value_ (Lazy.cell_ l2) = None
          /\ Lazy.is_initialized l2 w2 = Ok false l2 w2 []
          /\ Lazy.operator_bool l2 w2 = Ok false l2 w2 []
          /\ Lazy.init_fn_ l2 = Lazy.init_fn_ l.
Proof.
  intros W E T [c fn] l1 w w1 v tr1 Hm Hget w2. simpl in Hm.
  rewrite lazy_get_delegates in Hget.
  unfold Lazy.on_cell, on_member in Hget. cbn [Lazy.cell_ Lazy.init_fn_] in Hget.
  destruct (OnceCell.get_or_init fn c w) as [v' c1 w1' tr | |] eqn:Hcell;
    try discriminate.
  injection Hget as -> <- _ _.
  pose proof Hcell as Hret. apply get_or_init_returns in Hret as [Hs Hv].
  assert (Hm1 : OnceCell.mtx_ c1 = false).
  { destruct (State_eqb (OnceCell.state_ c) Initialized) eqn:Hb.
    - apply State_eqb_eq in Hb. rewrite (get_or_init_fast_path fn c w Hb) in Hcell.
      destruct (OnceCell.value_ c); [| discriminate].
      injection Hcell as _ <- _ _. exact Hm.
    - apply State_eqb_neq in Hb. rewrite (get_or_init_slow_path fn c w Hm Hb) in Hcell.
      destruct (fn w) as [[v' | e] w']; [| discriminate].
      injection Hcell as _ <- _ _. reflexivity. }
  destruct c1 as [slot s m]. simpl in *. subst slot s m.
  split; [repeat split |].
  eexists _, _. split; [reflexivity |]. repeat split.
Qed.

(** [test_lazy_initialization] reads [*lazy_value == 42] after the first
    access. *)
Lemma lazy_reads_what_get_returned_witness :
  let initializer : @InitFn Z unit Z := fun count => (Returned 42%Z, (count + 1)%Z) in
  let ready : Lazy.t Z unit Z :=
    Lazy.mk (OnceCell.mk (Some 42%Z) Initialized false) initializer in
  OnceCell.mtx_ (Lazy.cell_ (Lazy.ctor initializer)) = false
  /\ (exists tr1, Lazy.get (Lazy.ctor initializer) 0%Z = Ok 42%Z ready 1%Z tr1)
  /\ Lazy.operator_star ready 1%Z = Ok 42%Z ready 1%Z []
  /\ Lazy.is_initialized ready 1%Z = Ok true ready 1%Z [].
Proof.
  intros initializer ready. split; [reflexivity |]. split; [eexists; reflexivity |].
  destruct (lazy_reads_what_get_returned
              Z unit Z (Lazy.ctor initializer) ready 0%Z 1%Z 42%Z _ eq_refl eq_refl 1%Z)
    as ((_ & Hstar & _ & Hinit & _) & _).
  split; assumption.
Defined.

(** ** The declaration macros and their tests *)

Section MacroFacts.
Context {W E : Type}.

Lemma run_void_gets_initialized (n : nat) :
  forall (fn : @InitFn W E unit) (w : W),
    run (repeat LazyVoid.get n) (LazyVoid.mk (OnceCall.mk Initialized false) fn) w
    = Some (LazyVoid.mk (OnceCall.mk Initialized false) fn, w, []).
Proof.
  induction n as [| n IH]; intros fn w; [reflexivity |].
  cbn [repeat run]. rewrite lazy_void_get_delegates.
  unfold LazyVoid.on_once, on_member. cbn [LazyVoid.once_ LazyVoid.init_fn_].
  rewrite call_fast_path by reflexivity. cbn [map]. rewrite IH. reflexivity.
Qed.

End MacroFacts.



(** X9.  [LAZY_STATIC_VOID(name, expr)] followed by [n] calls of
    [name.get()] evaluates [expr] as a caller that retries until it first
    completes: the evaluations are those of [first_success] on [n] copies of
    [expr], nothing is evaluated by the declaration itself, and [name] ends
    initialized exactly when one evaluation completed. *)
Theorem lazy_static_void_evaluates_until_first_success :
  forall (W E T : Type) (expr : @InitFn W E T) (n : nat) (w w' : W)
         (flags : list bool) (r : option T),
    Caller.first_success (repeat expr n) w = (flags, r, w') ->
    exists tr,
      run (repeat LazyVoid.get n) (Macros.LAZY_STATIC_VOID expr) w
      = Some (LazyVoid.mk (match r with
                           | Some _ => OnceCall.mk Initialized false
                           | None => OnceCall.ctor
                           end)
                          (LazyVoid.init_fn_ (Macros.LAZY_STATIC_VOID expr)), w', tr)
      /\ invocations tr = map Invoked flags.
Proof.
  intros W E T expr n.
  unfold Macros.LAZY_STATIC_VOID, LazyVoid.ctor. cbn [LazyVoid.init_fn_].
  set (fnv := fun w : W =>
                match expr w with
                | (Returned _, w') => (Returned tt, w')
                | (Thrown e, w') => (Thrown e, w')
                end).
  assert (Hfnv : forall w, fnv w = match expr w with
                                   | (Returned _, w') => (Returned tt, w')
                                   | (Thrown e, w') => (Thrown e, w')
                                   end) by reflexivity.
  clearbody fnv.
  induction n as [| n IH]; intros w w' flags r Hfs.
  - injection Hfs as <- <- <-. exists []. split; reflexivity.
  - cbn [repeat Caller.first_success] in Hfs. cbn [repeat run].
    rewrite lazy_void_get_delegates.
    unfold LazyVoid.on_once, on_member.
    cbn [LazyVoid.once_ LazyVoid.init_fn_].
    rewrite (call_slow_path fnv OnceCall.ctor w eq_refl) by discriminate.
    rewrite Hfnv.
    destruct (expr w) as [[v | e] w1].
    + injection Hfs as <- <- <-. cbn [map lift_event].
      rewrite run_void_gets_initialized. eexists. split; reflexivity.
    + destruct (Caller.first_success (repeat expr n) w1) as [[flags1 r1] w2] eqn:Hrest.
      injection Hfs as <- <- <-.
      destruct (IH w1 w2 flags1 r1 Hrest) as (tr & Hrun & Hinv).
      cbn [map lift_event OnceCall.state_ OnceCall.ctor].
      change (OnceCall.mk Uninitialized false) with OnceCall.ctor in *.
      rewrite Hrun. eexists. split; [reflexivity |].
      rewrite invocations_app, Hinv. reflexivity.
Qed.

(** [test_lazy_static_void]:
    [LAZY_STATIC_VOID(lazy_void, side_effect_counter++)]; the counter is 0
    before, and 1 after one and after two calls of [get()]. *)
Lemma lazy_static_void_evaluates_until_first_success_witness :
  let increment : @InitFn Z unit Z := fun counter => (Returned counter, (counter + 1)%Z) in
  exists l tr,
    run (repeat LazyVoid.get 2) (Macros.LAZY_STATIC_VOID increment) 0%Z
    = Some (l, 1%Z, tr)
    /\ invocations tr = [Invoked true].
Proof.
  intros increment.
  destruct (lazy_static_void_evaluates_until_first_success
              Z unit Z increment 2 0%Z 1%Z [true] (Some 0%Z) eq_refl)
    as (tr & Hrun & Hinv).
  eexists _, tr. split; [exact Hrun | exact Hinv].
Defined.

(** ** Threads racing into [get_or_init] *)

Ltac thread_post :=
  eexists; split; [reflexivity |]; cbn in *;
  repeat split; intros; subst; try discriminate; try congruence; try lia;
  try tauto; auto.

Section ThreadFacts.
Context {W E T : Type}.
Implicit Types (c : OnceCell.t T) (w : W) (fn : @InitFn W E T)
  (pc : Threads.Pc E T) (cfg : Threads.Config W E T).

Lemma set_thread_length (i : nat) (th : Threads.Thread W E T) ths :
  length (Threads.set_thread i th ths) = length ths.
Proof.
  revert i. induction ths as [| th0 ths IH]; intros [| i]; simpl; auto.
Qed.

Lemma set_thread_same (i : nat) (th th0 : Threads.Thread W E T) ths :
  nth_error ths i = Some th0 ->
  nth_error (Threads.set_thread i th ths) i = Some th.
Proof.
  revert i. induction ths as [| th1 ths IH]; intros [| i]; simpl; try discriminate; auto.
Qed.

Lemma set_thread_other (i j : nat) (th : Threads.Thread W E T) ths :
  i <> j ->
  nth_error (Threads.set_thread i th ths) j = nth_error ths j.
Proof.
  revert i j. induction ths as [| th1 ths IH]; intros [| i] [| j] Hij; simpl; auto.
  contradiction.
Qed.

(** [pc_ok] looks at the flag and the slot only. *)
Lemma pc_ok_ext pc c c' :
  OnceCell.state_ c' = OnceCell.state_ c ->
  OnceCell.value_ c' = OnceCell.value_ c ->
  Threads.pc_ok pc c -> Threads.pc_ok pc c'.
Proof.
  intros Hs Hv. destruct pc as [| | | | | | | v | | | e | [v | e] | [v | e]];
    simpl; rewrite ?Hs, ?Hv; auto.
Qed.

(** What a thread outside the critical section relies on survives every
    step that keeps an [Initialized] cell as it is. *)
Lemma pc_ok_stable pc c c' :
  Threads.holds_lock_at pc = false ->
  (OnceCell.state_ c = Initialized ->
   OnceCell.state_ c' = Initialized /\ OnceCell.value_ c' = OnceCell.value_ c) ->
  Threads.pc_ok pc c -> Threads.pc_ok pc c'.
Proof.
  intros Hout Hkeep.
  destruct pc as [| | | | | | | v | | | e | [v | e] | [v | e]];
    simpl in *; try discriminate; auto.
  - intros Hs. apply Hkeep in Hs. tauto.
  - intros [Hs Hv]. destruct (Hkeep Hs) as [Hs' Hv']. split; congruence.
Qed.

(** One step of a thread in [get_or_init] whose assumptions hold. *)
Lemma step_get_or_init_sound fn pc c w :
  Threads.pc_ok pc c ->
  (Threads.holds_lock_at pc = true -> OnceCell.mtx_ c = true) ->
  (OnceCell.state_ c = Initialized -> OnceCell.value_ c <> None) ->
  match Threads.step_get_or_init fn pc c w with
  | Threads.Stepped th' c' w' tr =>
      exists pc',
        th' = Threads.InGetOrInit fn pc'
        /\ Threads.pc_ok pc' c'
        /\ (OnceCell.state_ c' = Initialized -> OnceCell.value_ c' <> None)
        /\ (OnceCell.state_ c = Initialized ->
            OnceCell.state_ c' = Initialized /\ OnceCell.value_ c' = OnceCell.value_ c)
        /\ (Threads.holds_lock_at pc = false ->
            OnceCell.state_ c' = OnceCell.state_ c
            /\ OnceCell.value_ c' = OnceCell.value_ c
            /\ w' = w
            /\ (Threads.holds_lock_at pc' = true -> OnceCell.mtx_ c = false))
        /\ OnceCell.mtx_ c' =
           (if Threads.holds_lock_at pc' then true
            else if Threads.holds_lock_at pc then false else OnceCell.mtx_ c)
        /\ Threads.remaining_at pc' < Threads.remaining_at pc
        /\ successes tr <= 1
        /\ (successes tr = 1 -> pc = Threads.Invoke /\ Threads.publishing pc' = true)
        /\ (Threads.publishing pc = true ->
            Threads.publishing pc' = true \/ OnceCell.state_ c' = Initialized)
  | Threads.Blocked => pc = Threads.Lock /\ OnceCell.mtx_ c = true
  | Threads.Finished => exists r, pc = Threads.Done r
  | Threads.Crashed => False
  end.
Proof.
  intros Hok Hheld Hfull.
  assert (Hdec : forall s, State_eqb s Initialized = true /\ s = Initialized
                           \/ State_eqb s Initialized = false /\ s <> Initialized).
  { intros s. destruct s; simpl; [right | right | left]; split; congruence. }
  destruct pc as [| | | | | | | v | | | e | r | r];
    cbn [Threads.step_get_or_init Threads.pc_ok Threads.holds_lock_at] in *;
    unfold Threads.atomically, OnceCell.load_state, OnceCell.deref_value,
      OnceCell.lock, OnceCell.unlock, OnceCell.store_state, OnceCell.emplace,
      invoke, bind, read, write, ret, undefined, after.
  - (* FastCheck *)
    destruct (Hdec (OnceCell.state_ c)) as [[-> Hs] | [-> Hs]]; thread_post.
  - (* FastReturn *)
    destruct (OnceCell.value_ c) as [v |] eqn:Hv; [| now apply Hfull].
    thread_post.
  - (* Lock *)
    destruct (OnceCell.mtx_ c) eqn:Hm; [split; reflexivity |]. thread_post.
  - (* SlowCheck *)
    destruct (Hdec (OnceCell.state_ c)) as [[-> Hs] | [-> Hs]]; thread_post.
  - (* SlowReturn *)
    destruct (OnceCell.value_ c) as [v |] eqn:Hv; [| now apply Hfull].
    thread_post.
  - (* StoreInitializing *)
    thread_post.
  - (* Invoke *)
    destruct (fn w) as [[v | e] w']; thread_post.
  - (* Emplace *)
    thread_post.
  - (* StoreInitialized *)
    thread_post.
  - (* ReturnValue *)
    destruct (OnceCell.value_ c) as [v |] eqn:Hv; [| now apply Hfull].
    thread_post.
  - (* Rollback *)
    thread_post.
  - (* Unlock *)
    destruct r as [v | e]; thread_post.
  - (* Done *)
    exists r. reflexivity.
Qed.

Lemma remaining_set_thread (i : nat) (th th0 : Threads.Thread W E T) ths :
  nth_error ths i = Some th0 ->
  list_sum (map Threads.remaining (Threads.set_thread i th ths)) + Threads.remaining th0
  = list_sum (map Threads.remaining ths) + Threads.remaining th.
Proof.
  revert i. induction ths as [| th1 ths IH]; intros [| i]; simpl; try discriminate.
  - intros [= ->]. lia.
  - intros H. specialize (IH i H). lia.
Qed.

(** The scheduler preserves the invariant, whichever thread it picks; a
    step that changes anything brings the threads closer to the end. *)
Lemma schedule_preserves (i : nat) (owner : option nat) cfg :
  Threads.invariant owner cfg ->
  exists owner' cfg',
    Threads.schedule i cfg = Some cfg'
    /\ Threads.invariant owner' cfg'
    /\ length (Threads.threads cfg') = length (Threads.threads cfg)
    /\ (OnceCell.state_ (Threads.cell cfg) = Initialized ->
        OnceCell.state_ (Threads.cell cfg') = Initialized
        /\ OnceCell.value_ (Threads.cell cfg') = OnceCell.value_ (Threads.cell cfg))
    /\ (cfg' = cfg
        /\ (nth_error (Threads.threads cfg) i = None
            \/ (exists fn r,
                  nth_error (Threads.threads cfg) i
                  = Some (Threads.InGetOrInit fn (Threads.Done r)))
            \/ (exists fn,
                  nth_error (Threads.threads cfg) i
                  = Some (Threads.InGetOrInit fn Threads.Lock)
                  /\ OnceCell.mtx_ (Threads.cell cfg) = true))
        \/ list_sum (map Threads.remaining (Threads.threads cfg'))
           < list_sum (map Threads.remaining (Threads.threads cfg))).
Proof.
  intros Hinv. pose proof Hinv as (Hmtx & Hfull & Hths & Hown & Hle & Hone).
  unfold Threads.schedule.
  destruct (nth_error (Threads.threads cfg) i) as [th |] eqn:Hth.
  2: { exists owner, cfg.
       split; [reflexivity |]. split; [assumption |]. split; [reflexivity |].
       split; [auto |].
       left. split; [reflexivity |]. left. reflexivity. }
  destruct (Hths i th Hth) as (fn & pc & -> & Hok & Hiff).
  assert (Hheld : Threads.holds_lock_at pc = true -> OnceCell.mtx_ (Threads.cell cfg) = true).
  { intros H. apply Hiff in H. rewrite Hmtx, H. reflexivity. }
  pose proof (step_get_or_init_sound fn pc (Threads.cell cfg) (Threads.env cfg)
                Hok Hheld Hfull) as Hstep.
  cbn [Threads.step].
  destruct (Threads.step_get_or_init fn pc (Threads.cell cfg) (Threads.env cfg))
    as [th' c' w' tr | | |]; [| | | contradiction].
  2: { destruct Hstep as [-> Hm]. exists owner, cfg.
       split; [reflexivity |]. split; [assumption |]. split; [reflexivity |].
       split; [auto |].
       left. split; [reflexivity |]. right. right. exists fn. auto. }
  2: { destruct Hstep as [r ->]. exists owner, cfg.
       split; [reflexivity |]. split; [assumption |]. split; [reflexivity |].
       split; [auto |].
       left. split; [reflexivity |]. right. left. exists fn, r. reflexivity. }
  destruct Hstep as (pc' & -> & Hok' & Hfull' & Hkeep & Hout & Hmtx' & Hrem & Hsle & Hsone & Hpub).
  exists (if Threads.holds_lock_at pc' then Some i
          else if Threads.holds_lock_at pc then None else owner).
  eexists. split; [reflexivity |].
  assert (Hlt : i < length (Threads.threads cfg)).
  { apply nth_error_Some. congruence. }
  split; [| split; [apply set_thread_length | split; [exact Hkeep |]]].
  - (* the invariant *)
    unfold Threads.invariant. cbn [Threads.cell Threads.env Threads.threads Threads.trace].
    split; [| split; [exact Hfull' |]].
    { rewrite Hmtx'. destruct (Threads.holds_lock_at pc'); [reflexivity |].
      destruct (Threads.holds_lock_at pc); [reflexivity | exact Hmtx]. }
    split; [| split; [| split]].
    + (* every thread *)
      intros j thj Hj. destruct (Nat.eq_dec i j) as [<- | Hij].
      * rewrite (set_thread_same _ _ _ _ Hth) in Hj. injection Hj as <-.
        exists fn, pc'. split; [reflexivity |]. split; [exact Hok' |].
        destruct (Threads.holds_lock_at pc') eqn:Hh'; [tauto |].
        split; [discriminate |].
        destruct (Threads.holds_lock_at pc) eqn:Hh; [discriminate |].
        intros Ho. apply Hiff in Ho. discriminate.
      * rewrite (set_thread_other _ _ _ _ Hij) in Hj.
        destruct (Hths j thj Hj) as (fnj & pcj & -> & Hokj & Hiffj).
        exists fnj, pcj. split; [reflexivity |].
        assert (Hnot : Threads.holds_lock_at pc = true \/ Threads.holds_lock_at pc' = true ->
                       Threads.holds_lock_at pcj = false).
        { intros Hc. destruct (Threads.holds_lock_at pcj) eqn:Hhj; [| reflexivity].
          exfalso. pose proof (proj1 Hiffj eq_refl) as Hoj.
          destruct (Threads.holds_lock_at pc) eqn:Hh.
          - pose proof (proj1 Hiff eq_refl) as Hoi. congruence.
          - destruct Hc as [Hc | Hc]; [discriminate |].
            destruct (Hout eq_refl) as (_ & _ & _ & Hfree).
            rewrite (Hfree Hc), Hoj in Hmtx. discriminate. }
        split.
        -- destruct (Threads.holds_lock_at pc) eqn:Hh.
           ++ apply (pc_ok_stable pcj (Threads.cell cfg)); auto.
           ++ destruct (Hout eq_refl) as (Hs & Hv & _).
              apply (pc_ok_ext pcj (Threads.cell cfg)); auto.
        -- destruct (Threads.holds_lock_at pc') eqn:Hh'.
           ++ rewrite (Hnot (or_intror eq_refl)).
              split; [discriminate | intros [= ?]; contradiction].
           ++ destruct (Threads.holds_lock_at pc) eqn:Hh; [| exact Hiffj].
              rewrite (Hnot (or_introl eq_refl)). split; discriminate.
    + (* the owner is a thread *)
      intros k Hk. rewrite set_thread_length.
      destruct (Threads.holds_lock_at pc'); [injection Hk as <-; exact Hlt |].
      destruct (Threads.holds_lock_at pc); [discriminate | auto].
    + (* at most one successful invocation *)
      rewrite successes_app.
      destruct (successes tr) as [| [| n]] eqn:Hn; [lia | | lia].
      destruct (Hsone eq_refl) as [-> Hp'].
      assert (successes (Threads.trace cfg) = 0); [| lia].
      destruct (successes (Threads.trace cfg)) as [| [| m]] eqn:Hm; [reflexivity | | lia].
      exfalso. destruct (Hone eq_refl) as [Hs | (j & fnj & pcj & Hj & Hpj)].
      * simpl in Hok. contradiction.
      * destruct (Hths j _ Hj) as (fnj' & pcj' & [= <- <-] & _ & Hiffj).
        assert (Hhj : Threads.holds_lock_at pcj = true)
          by (destruct pcj; simpl in Hpj; try discriminate; reflexivity).
        apply Hiffj in Hhj. pose proof (proj1 Hiff eq_refl) as Hoi.
        assert (j = i) by congruence. subst j.
        rewrite Hth in Hj. injection Hj as _ <-. discriminate.
    + (* a successful invocation is published or about to be *)
      rewrite successes_app. intros Htot.
      destruct (successes tr) as [| [| n]] eqn:Hn.
      * rewrite Nat.add_0_r in Htot.
        destruct (Hone Htot) as [Hs | (j & fnj & pcj & Hj & Hpj)].
        -- left. apply Hkeep. exact Hs.
        -- destruct (Nat.eq_dec i j) as [<- | Hij].
           ++ rewrite Hth in Hj. injection Hj as _ <-.
              destruct (Hpub Hpj) as [Hp' | Hs']; [| left; exact Hs'].
              right. exists i, fn, pc'. split; [| exact Hp'].
              apply (set_thread_same _ _ _ _ Hth).
           ++ right. exists j, fnj, pcj. split; [| exact Hpj].
              rewrite (set_thread_other _ _ _ _ Hij). exact Hj.
      * destruct (Hsone eq_refl) as [_ Hp'].
        right. exists i, fn, pc'. split; [| exact Hp'].
        apply (set_thread_same _ _ _ _ Hth).
      * lia.
  - (* progress towards the end *)
    right. cbn [Threads.threads].
    pose proof (remaining_set_thread i (Threads.InGetOrInit fn pc') _ _ Hth) as Hsum.
    cbn [Threads.remaining] in Hsum. lia.
Qed.

End ThreadFacts.

Section RaceFacts.
Context {W E T : Type}.
Implicit Types (c : OnceCell.t T) (w : W) (cfg : Threads.Config W E T).

Lemma run_schedule_app (s1 s2 : list nat) cfg :
  Threads.run_schedule (s1 ++ s2) cfg =
    match Threads.run_schedule s1 cfg with
    | Some cfg' => Threads.run_schedule s2 cfg'
    | None => None
    end.
Proof.
  revert cfg. induction s1 as [| i s1 IH]; intros cfg; simpl; [reflexivity |].
  destruct (Threads.schedule i cfg); auto.
Qed.

Lemma run_schedule_preserves (sched : list nat) :
  forall owner cfg,
    Threads.invariant owner cfg ->
    exists owner' cfg',
      Threads.run_schedule sched cfg = Some cfg'
      /\ Threads.invariant owner' cfg'
      /\ length (Threads.threads cfg') = length (Threads.threads cfg)
      /\ list_sum (map Threads.remaining (Threads.threads cfg'))
         <= list_sum (map Threads.remaining (Threads.threads cfg))
      /\ (OnceCell.state_ (Threads.cell cfg) = Initialized ->
          OnceCell.state_ (Threads.cell cfg') = Initialized
          /\ OnceCell.value_ (Threads.cell cfg') = OnceCell.value_ (Threads.cell cfg)).
Proof.
  induction sched as [| i sched IH]; intros owner cfg Hinv.
  - exists owner, cfg. auto 6.
  - destruct (schedule_preserves i owner cfg Hinv)
      as (owner1 & cfg1 & Hstep & Hinv1 & Hlen1 & Hkeep1 & Hsum1).
    destruct (IH owner1 cfg1 Hinv1)
      as (owner2 & cfg2 & Hrun & Hinv2 & Hlen2 & Hsum2 & Hkeep2).
    exists owner2, cfg2. simpl. rewrite Hstep.
    split; [exact Hrun |]. split; [exact Hinv2 |]. split; [congruence |].
    split; [destruct Hsum1 as [[-> _] | Hlt]; lia |].
    intros Hs. destruct (Hkeep1 Hs) as [Hs1 Hv1]. destruct (Hkeep2 Hs1) as [Hs2 Hv2].
    split; congruence.
Qed.

(** Threads about to enter [get_or_init] on a cell between two calls. *)
Lemma invariant_start c w (fns : list (@InitFn W E T)) :
  OnceCell.quiescent c ->
  Threads.invariant None (Threads.start c w fns).
Proof.
  intros [Hm Hslot]. unfold Threads.invariant, Threads.start. simpl.
  split; [exact Hm |]. split; [intros Hs; apply Hslot; exact Hs |].
  split; [| split; [discriminate | split; [cbn; lia | cbn; discriminate]]].
  intros i th Hth. apply nth_error_In, in_map_iff in Hth as (fn & <- & _).
  exists fn, Threads.FastCheck. split; [reflexivity |]. split; [exact I |].
  simpl. split; discriminate.
Qed.

Lemma remaining_start c w (fns : list (@InitFn W E T)) :
  list_sum (map Threads.remaining (Threads.threads (Threads.start c w fns)))
  = 9 * length fns.
Proof.
  unfold Threads.start. simpl. induction fns as [| fn fns IH]; simpl; [reflexivity |].
  rewrite IH. lia.
Qed.

(** Unless every thread has finished, some thread can take a step. *)
Lemma invariant_progress owner cfg :
  Threads.invariant owner cfg ->
  forallb Threads.finished (Threads.threads cfg) = true
  \/ exists i owner' cfg',
      Threads.schedule i cfg = Some cfg'
      /\ Threads.invariant owner' cfg'
      /\ list_sum (map Threads.remaining (Threads.threads cfg'))
         < list_sum (map Threads.remaining (Threads.threads cfg)).
Proof.
  intros Hinv. pose proof Hinv as (Hmtx & _ & Hths & Hown & _).
  destruct (forallb Threads.finished (Threads.threads cfg)) eqn:Hall; [left; reflexivity |].
  right.
  assert (Hpick : exists i fn pc,
             nth_error (Threads.threads cfg) i = Some (Threads.InGetOrInit fn pc)
             /\ (forall r, pc <> Threads.Done r)
             /\ (pc = Threads.Lock -> OnceCell.mtx_ (Threads.cell cfg) = false)).
  { destruct owner as [k |].
    - destruct (nth_error (Threads.threads cfg) k) as [th |] eqn:Hk.
      + destruct (Hths k th Hk) as (fn & pc & -> & _ & Hiff).
        pose proof (proj2 Hiff eq_refl) as Hh.
        exists k, fn, pc. split; [exact Hk |].
        split; [intros r -> | intros ->]; discriminate.
      + apply nth_error_None in Hk. specialize (Hown k eq_refl). lia.
    - assert (Hex : exists th, In th (Threads.threads cfg) /\ Threads.finished th = false).
      { clear -Hall. induction (Threads.threads cfg) as [| th ths IH]; [discriminate |].
        simpl in Hall. destruct (Threads.finished th) eqn:Hf.
        - destruct (IH Hall) as (th' & Hin & Hf'). exists th'. simpl. auto.
        - exists th. simpl. auto. }
      destruct Hex as (th & Hin & Hf).
      apply In_nth_error in Hin as (i & Hi).
      destruct (Hths i th Hi) as (fn & pc & -> & _ & _).
      exists i, fn, pc. split; [exact Hi |]. split; [| intros _; exact Hmtx].
      intros r ->. discriminate. }
  destruct Hpick as (i & fn & pc & Hi & Hnd & Hfree).
  destruct (schedule_preserves i owner cfg Hinv)
    as (owner' & cfg' & Hstep & Hinv' & _ & _ & [[_ Hstuck] | Hlt]).
  - exfalso. rewrite Hi in Hstuck.
    destruct Hstuck as [H | [(fn' & r & [= _ ->]) | (fn' & [= _ ->] & Hm)]].
    + discriminate.
    + apply (Hnd r). reflexivity.
    + rewrite (Hfree eq_refl) in Hm. discriminate.
  - exists i, owner', cfg'. auto.
Qed.

(** From any configuration that satisfies the invariant the threads can
    all be run to the end, within the steps they have left. *)
Lemma invariant_completes (n : nat) :
  forall owner cfg,
    Threads.invariant owner cfg ->
    list_sum (map Threads.remaining (Threads.threads cfg)) <= n ->
    exists rest owner' cfg',
      length rest <= n
      /\ Threads.run_schedule rest cfg = Some cfg'
      /\ Threads.invariant owner' cfg'
      /\ forallb Threads.finished (Threads.threads cfg') = true.
Proof.
  induction n as [| n IH]; intros owner cfg Hinv Hsum.
  - destruct (invariant_progress owner cfg Hinv) as [Hall | (i & o' & c' & _ & _ & Hlt)];
      [| lia].
    exists [], owner, cfg. simpl.
    split; [lia |]. split; [reflexivity |]. split; assumption.
  - destruct (invariant_progress owner cfg Hinv) as [Hall | (i & o1 & cfg1 & Hstep & Hinv1 & Hlt)].
    + exists [], owner, cfg. simpl.
      split; [lia |]. split; [reflexivity |]. split; assumption.
    + destruct (IH o1 cfg1 Hinv1 ltac:(lia)) as (rest & o2 & cfg2 & Hlen & Hrun & Hinv2 & Hall).
      exists (i :: rest), o2, cfg2. simpl. rewrite Hstep.
      split; [lia |]. split; [exact Hrun |]. split; assumption.
Qed.

End RaceFacts.

(** X10.  Any number of threads racing into [get_or_init] on a cell that
    was between two calls, under any scheduling of their steps and with any
    initializers: no step is undefined (in particular no thread ever
    dereferences an empty slot), at most one thread at a time is between
    taking and releasing the lock, nobody is there when the mutex is free,
    and over the whole run at most one invocation of an initializer
    succeeds. *)
Theorem racing_get_or_init_is_safe :
  forall (W E T : Type) (c : OnceCell.t T) (w : W) (fns : list (@InitFn W E T))
         (sched : list nat),
    OnceCell.quiescent c ->
    exists cfg,
      Threads.run_schedule sched (Threads.start c w fns) = Some cfg
      /\ successes (Threads.trace cfg) <= 1
      /\ (forall i j thi thj,
            nth_error (Threads.threads cfg) i = Some thi ->
            nth_error (Threads.threads cfg) j = Some thj ->
            Threads.holds_lock thi = true ->
            Threads.holds_lock thj = true ->
            i = j)
      /\ (OnceCell.mtx_ (Threads.cell cfg) = false ->
          forall i th, nth_error (Threads.threads cfg) i = Some th ->
                       Threads.holds_lock th = false).
Proof.
  intros W E T c w fns sched Hq.
  destruct (run_schedule_preserves sched None _ (invariant_start c w fns Hq))
    as (owner & cfg & Hrun & (Hmtx & _ & Hths & _ & Hle & _) & _).
  exists cfg. split; [exact Hrun |]. split; [exact Hle |]. split.
  - intros i j thi thj Hi Hj Hhi Hhj.
    destruct (Hths i thi Hi) as (fi & pi & -> & _ & Hiffi).
    destruct (Hths j thj Hj) as (fj & pj & -> & _ & Hiffj).
    apply Hiffi in Hhi. apply Hiffj in Hhj. congruence.
  - intros Hfree i th Hi.
    destruct (Hths i th Hi) as (fi & pi & -> & _ & Hiffi).
    simpl. destruct (Threads.holds_lock_at pi); [| reflexivity].
    rewrite (proj1 Hiffi eq_refl) in Hmtx. congruence.
Qed.

(** Two threads with different initializers, the second of which takes the
    lock first. *)
Lemma racing_get_or_init_is_safe_witness :
  let a : @InitFn nat unit Z := fun n => (Returned 1%Z, S n) in
  let b : @InitFn nat unit Z := fun n => (Returned 2%Z, S n) in
  OnceCell.quiescent (@OnceCell.ctor Z)
  /\ exists cfg,
      Threads.run_schedule [0; 1; 1; 0; 1; 1; 1; 0; 1; 1; 1; 1; 0; 0; 0; 0]
        (Threads.start OnceCell.ctor 0 [a; b]) = Some cfg
      /\ successes (Threads.trace cfg) <= 1.
Proof.
  intros a b. split; [apply quiescent_ctor |].
  destruct (racing_get_or_init_is_safe
              nat unit Z OnceCell.ctor 0 [a; b]
              [0; 1; 1; 0; 1; 1; 1; 0; 1; 1; 1; 1; 0; 0; 0; 0] quiescent_ctor)
    as (cfg & Hrun & Hle & _).
  exists cfg. split; assumption.
Defined.

(** X11.  In such a race every thread that has returned from
    [get_or_init] has returned the value that is in the slot, the flag being
    [Initialized]; so all threads that returned got the same value, whoever
    computed it. *)
Theorem racing_get_or_init_agree :
  forall (W E T : Type) (c : OnceCell.t T) (w : W) (fns : list (@InitFn W E T))
         (sched : list nat),
    OnceCell.quiescent c ->
    exists cfg,
      Threads.run_schedule sched (Threads.start c w fns) = Some cfg
      /\ (forall i th v,
            nth_error (Threads.threads cfg) i = Some th ->
            Threads.result th = Some (Returned v) ->
            OnceCell.state_ (Threads.cell cfg) = Initialized
            /\ OnceCell.value_ (Threads.cell cfg) = Some v)
      /\ (forall i j thi thj vi vj,
            nth_error (Threads.threads cfg) i = Some thi ->
            nth_error (Threads.threads cfg) j = Some thj ->
            Threads.result thi = Some (Returned vi) ->
            Threads.result thj = Some (Returned vj) ->
            vi = vj).
Proof.
  intros W E T c w fns sched Hq.
  destruct (run_schedule_preserves sched None _ (invariant_start c w fns Hq))
    as (owner & cfg & Hrun & (_ & _ & Hths & _) & _).
  assert (Hres : forall i th v,
             nth_error (Threads.threads cfg) i = Some th ->
             Threads.result th = Some (Returned v) ->
             OnceCell.state_ (Threads.cell cfg) = Initialized
             /\ OnceCell.value_ (Threads.cell cfg) = Some v).
  { intros i th v Hi Hr.
    destruct (Hths i th Hi) as (fi & pi & -> & Hok & _).
    destruct pi; simpl in Hr; try discriminate.
    injection Hr as ->. exact Hok. }
  exists cfg. split; [exact Hrun |]. split; [exact Hres |].
  intros i j thi thj vi vj Hi Hj Hri Hrj.
  destruct (Hres i thi vi Hi Hri) as [_ Hvi].
  destruct (Hres j thj vj Hj Hrj) as [_ Hvj].
  congruence.
Qed.

(** The same two threads, run to the end: both return 2, the value of the
    thread that took the lock first. *)
Lemma racing_get_or_init_agree_witness :
  let a : @InitFn nat unit Z := fun n => (Returned 1%Z, S n) in
  let b : @InitFn nat unit Z := fun n => (Returned 2%Z, S n) in
  let sched := [0; 1; 1; 0; 1; 1; 1; 0; 1; 1; 1; 1; 0; 0; 0; 0] in
  OnceCell.quiescent (@OnceCell.ctor Z)
  /\ Threads.run_schedule sched (Threads.start OnceCell.ctor 0 [a; b])
     = Some (Threads.mkConfig
               (OnceCell.mk (Some 2%Z) Initialized false) 1
               [Threads.InGetOrInit a (Threads.Done (Returned 2%Z));
                Threads.InGetOrInit b (Threads.Done (Returned 2%Z))]
               [Wrote (OnceCell.mk None Uninitialized true);
                Wrote (OnceCell.mk None Initializing true);
                Invoked true;
                Wrote (OnceCell.mk (Some 2%Z) Initializing true);
                Wrote (OnceCell.mk (Some 2%Z) Initialized true);
                Wrote (OnceCell.mk (Some 2%Z) Initialized false);
                Wrote (OnceCell.mk (Some 2%Z) Initialized true);
                Wrote (OnceCell.mk (Some 2%Z) Initialized false)])
  /\ OnceCell.value_ (OnceCell.mk (Some 2%Z) Initialized false) = Some 2%Z.
Proof.
  intros a b sched. split; [apply quiescent_ctor |].
  destruct (racing_get_or_init_agree
              nat unit Z OnceCell.ctor 0 [a; b] sched quiescent_ctor)
    as (cfg & Hrun & Hres & _).
  assert (Heq : Threads.run_schedule sched (Threads.start OnceCell.ctor 0 [a; b])
                = Some (Threads.mkConfig
                          (OnceCell.mk (Some 2%Z) Initialized false) 1
                          [Threads.InGetOrInit a (Threads.Done (Returned 2%Z));
                           Threads.InGetOrInit b (Threads.Done (Returned 2%Z))]
                          [Wrote (OnceCell.mk None Uninitialized true);
                           Wrote (OnceCell.mk None Initializing true);
                           Invoked true;
                           Wrote (OnceCell.mk (Some 2%Z) Initializing true);
                           Wrote (OnceCell.mk (Some 2%Z) Initialized true);
                           Wrote (OnceCell.mk (Some 2%Z) Initialized false);
                           Wrote (OnceCell.mk (Some 2%Z) Initialized true);
                           Wrote (OnceCell.mk (Some 2%Z) Initialized false)]))
    by reflexivity.
  split; [exact Heq |].
  rewrite Heq in Hrun. injection Hrun as <-.
  apply (Hres 0 _ 2%Z eq_refl eq_refl).
Defined.

(** X12.  Such a race cannot get stuck: after any scheduling so far, the
    threads can all be run to the end of [get_or_init], in at most nine
    steps per thread. *)
Theorem racing_get_or_init_completes :
  forall (W E T : Type) (c : OnceCell.t T) (w : W) (fns : list (@InitFn W E T))
         (sched : list nat),
    OnceCell.quiescent c ->
    exists rest cfg,
      length rest <= 9 * length fns
      /\ Threads.run_schedule (sched ++ rest) (Threads.start c w fns) = Some cfg
      /\ forallb Threads.finished (Threads.threads cfg) = true
      /\ OnceCell.mtx_ (Threads.cell cfg) = false.
Proof.
  intros W E T c w fns sched Hq.
  destruct (run_schedule_preserves sched None _ (invariant_start c w fns Hq))
    as (owner & cfg & Hrun & Hinv & _ & Hsum & _).
  rewrite remaining_start in Hsum.
  destruct (invariant_completes (9 * length fns) owner cfg Hinv Hsum)
    as (rest & owner' & cfg' & Hlen & Hrun' & Hinv' & Hall).
  exists rest, cfg'. split; [exact Hlen |].
  split; [rewrite run_schedule_app, Hrun; exact Hrun' |].
  split; [exact Hall |].
  destruct Hinv' as (Hmtx & _ & Hths & Hown & _).
  destruct owner' as [k |]; [| exact Hmtx].
  exfalso. specialize (Hown k eq_refl).
  destruct (nth_error (Threads.threads cfg') k) as [th |] eqn:Hk;
    [| apply nth_error_None in Hk; lia].
  destruct (Hths k th Hk) as (fn & pc & -> & _ & Hiff).
  pose proof (proj2 Hiff eq_refl) as Hh.
  rewrite forallb_forall in Hall. specialize (Hall _ (nth_error_In _ _ Hk)).
  destruct pc; simpl in Hall, Hh; discriminate.
Qed.

(** Three threads, the first of which is stopped right after it took the
    lock: the run can still be completed. *)
Lemma racing_get_or_init_completes_witness :
  let fn : @InitFn nat unit Z := fun n => (Returned 99%Z, S n) in
  OnceCell.quiescent (@OnceCell.ctor Z)
  /\ exists rest cfg,
      length rest <= 27
      /\ Threads.run_schedule ([0; 0; 1; 1; 2] ++ rest)
           (Threads.start OnceCell.ctor 0 [fn; fn; fn]) = Some cfg
      /\ forallb Threads.finished (Threads.threads cfg) = true.
Proof.
  intros fn. split; [apply quiescent_ctor |].
  destruct (racing_get_or_init_completes
              nat unit Z OnceCell.ctor 0 [fn; fn; fn] [0; 0; 1; 1; 2] quiescent_ctor)
    as (rest & cfg & Hlen & Hrun & Hall & _).
  exists rest, cfg. auto.
Defined.

Ltac thread_effects :=
  thread_post; try (left; congruence); try (right; congruence).

Section SameInitializerFacts.
Context {W E T : Type}.
Implicit Types (c : OnceCell.t T) (w : W) (fn : @InitFn W E T)
  (pc : Threads.Pc E T) (cfg : Threads.Config W E T).

(** What one step of [get_or_init] does to the environment, the trace and
    the slot, and where it can lead. *)
Lemma step_get_or_init_effects fn pc c w :
  match Threads.step_get_or_init fn pc c w with
  | Threads.Stepped th' c' w' tr =>
      exists pc',
        th' = Threads.InGetOrInit fn pc'
        /\ (pc <> Threads.Invoke ->
            w' = w /\ invocations tr = [] /\ successes tr = 0
            /\ (Threads.throws_at pc' = true -> Threads.throws_at pc = true)
            /\ (forall v', pc' <> Threads.Emplace v')
            /\ (Threads.publishing pc' = true -> Threads.publishing pc = true))
        /\ (pc = Threads.Invoke ->
            match fn w with
            | (Returned v, w1) =>
                pc' = Threads.Emplace v /\ w' = w1 /\ tr = [Invoked true]
            | (Thrown e, w1) =>
                pc' = Threads.Rollback e /\ w' = w1 /\ tr = [Invoked false]
            end)
        /\ (forall v', OnceCell.value_ c' = Some v' ->
                       OnceCell.value_ c = Some v' \/ pc = Threads.Emplace v')
        /\ (OnceCell.state_ c' = Initialized ->
            OnceCell.state_ c = Initialized \/ pc = Threads.StoreInitialized)
  | _ => True
  end.
Proof.
  destruct pc as [| | | | | | | v | | | e | r | r];
    cbn [Threads.step_get_or_init];
    unfold Threads.atomically, OnceCell.load_state, OnceCell.deref_value,
      OnceCell.lock, OnceCell.unlock, OnceCell.store_state, OnceCell.emplace,
      invoke, bind, read, write, ret, undefined, after.
  - destruct (State_eqb (OnceCell.state_ c) Initialized); thread_effects.
  - destruct (OnceCell.value_ c) as [v |] eqn:Hv; [| exact I]. thread_effects.
  - destruct (OnceCell.mtx_ c) eqn:Hm; [exact I |]. thread_effects.
  - destruct (State_eqb (OnceCell.state_ c) Initialized); thread_effects.
  - destruct (OnceCell.value_ c) as [v |] eqn:Hv; [| exact I]. thread_effects.
  - thread_effects.
  - destruct (fn w) as [[v | e] w'] eqn:Hfn; thread_effects.
  - thread_effects.
  - thread_effects.
  - destruct (OnceCell.value_ c) as [v |] eqn:Hv; [| exact I]. thread_effects.
  - thread_effects.
  - destruct r as [v | e]; thread_effects.
  - exact I.
Qed.

(** No initializer has returned yet when a thread is about to invoke
    one. *)
Lemma invoke_before_success owner cfg (i : nat) fn :
  Threads.invariant owner cfg ->
  nth_error (Threads.threads cfg) i = Some (Threads.InGetOrInit fn Threads.Invoke) ->
  successes (Threads.trace cfg) = 0.
Proof.
  intros (_ & _ & Hths & _ & Hle & Hone) Hi.
  destruct (successes (Threads.trace cfg)) as [| [| n]] eqn:Hn; [reflexivity | | lia].
  exfalso.
  destruct (Hths i _ Hi) as (fi & pi & [= <- <-] & Hok & Hiff).
  destruct (Hone eq_refl) as [Hs | (j & fj & pj & Hj & Hpj)].
  - simpl in Hok. contradiction.
  - destruct (Hths j _ Hj) as (fj' & pj' & [= <- <-] & _ & Hiffj).
    assert (Hhj : Threads.holds_lock_at pj = true)
      by (destruct pj; simpl in Hpj; try discriminate; reflexivity).
    apply Hiffj in Hhj. pose proof (proj1 Hiff eq_refl) as Hoi.
    assert (j = i) by congruence. subst j.
    rewrite Hi in Hj. injection Hj as _ <-. discriminate.
Qed.

Lemma schedule_preserves_same fn (w0 w1 : W) (v : T) (i : nat) owner cfg cfg' :
  fn w0 = (Returned v, w1) ->
  Threads.invariant owner cfg ->
  Threads.same_initializer fn w0 w1 v cfg ->
  Threads.schedule i cfg = Some cfg' ->
  Threads.same_initializer fn w0 w1 v cfg'.
Proof.
  intros Hfn Hinv Hsame. pose proof Hsame as (J1 & J2 & J3 & J4).
  pose proof Hinv as (_ & _ & Hths & _ & Hle & _).
  unfold Threads.schedule.
  destruct (nth_error (Threads.threads cfg) i) as [th |] eqn:Hth;
    [| intros [= <-]; exact Hsame].
  destruct (Hths i th Hth) as (fn' & pc & -> & _ & _).
  destruct (J1 i fn' pc Hth) as (-> & Hnt & Hemp).
  cbn [Threads.step].
  pose proof (step_get_or_init_effects fn pc (Threads.cell cfg) (Threads.env cfg)) as Heff.
  destruct (Threads.step_get_or_init fn pc (Threads.cell cfg) (Threads.env cfg))
    as [th' c' w' tr | | |]; try (intros [= <-]; exact Hsame); try discriminate.
  destruct Heff as (pc' & -> & Hother & Hinvoke & Hval & Hst).
  intros [= <-].
  unfold Threads.same_initializer.
  cbn [Threads.cell Threads.env Threads.threads Threads.trace].
  assert (Hcase : pc = Threads.Invoke \/ pc <> Threads.Invoke)
    by (destruct pc; auto; right; discriminate).
  assert (Hnth : forall j fj pj,
             nth_error (Threads.set_thread i (Threads.InGetOrInit fn pc')
                          (Threads.threads cfg)) j
             = Some (Threads.InGetOrInit fj pj) ->
             j = i /\ fj = fn /\ pj = pc'
             \/ j <> i /\ nth_error (Threads.threads cfg) j
                          = Some (Threads.InGetOrInit fj pj)).
  { intros j fj pj Hj. destruct (Nat.eq_dec i j) as [<- | Hij].
    - rewrite (set_thread_same _ _ _ _ Hth) in Hj. injection Hj as <- <-. auto.
    - rewrite (set_thread_other _ _ _ _ Hij) in Hj. auto. }
  destruct Hcase as [-> | Hne].
  - (* the invocation: the first, in the starting environment *)
    pose proof (invoke_before_success owner cfg i fn Hinv Hth) as Hzero.
    destruct (J2 Hzero) as (Henv & Hnone & Hns & Hnp).
    specialize (Hinvoke eq_refl). rewrite Henv, Hfn in Hinvoke.
    destruct Hinvoke as (-> & -> & ->).
    split; [| split; [| split]].
    + intros j fj pj Hj. destruct (Hnth j fj pj Hj) as [(-> & -> & ->) | (_ & Hj')].
      * split; [reflexivity |]. split; [reflexivity |]. intros v' [= ->]. reflexivity.
      * apply (J1 j fj pj Hj').
    + rewrite successes_app, Hzero. cbn. discriminate.
    + intros _. split; [reflexivity |]. rewrite invocations_app, Hnone. reflexivity.
    + intros v' Hv'. destruct (Hval v' Hv') as [Hold | Hbad]; [| discriminate].
      apply (J4 v' Hold).
  - (* any other step *)
    destruct (Hother Hne) as (-> & Hinv0 & Hsucc0 & Hthrow & Hnoemp & Hpub).
    split; [| split; [| split]].
    + intros j fj pj Hj. destruct (Hnth j fj pj Hj) as [(-> & -> & ->) | (_ & Hj')].
      * split; [reflexivity |]. split.
        -- destruct (Threads.throws_at pc') eqn:Ht; [| reflexivity].
           rewrite (Hthrow eq_refl) in Hnt. discriminate.
        -- intros v' ->. exfalso. apply (Hnoemp v'). reflexivity.
      * apply (J1 j fj pj Hj').
    + rewrite successes_app, Hsucc0, Nat.add_0_r. intros Hzero.
      destruct (J2 Hzero) as (Henv & Hnone & Hns & Hnp).
      split; [exact Henv |].
      split; [rewrite invocations_app, Hnone, Hinv0; reflexivity |].
      split.
      * intros Hs'. destruct (Hst Hs') as [Hs | ->]; [contradiction |].
        specialize (Hnp i fn _ Hth). discriminate.
      * intros j fj pj Hj. destruct (Hnth j fj pj Hj) as [(-> & -> & ->) | (_ & Hj')].
        -- destruct (Threads.publishing pc') eqn:Hp; [| reflexivity].
           rewrite (Hnp i fn pc Hth) in Hpub. specialize (Hpub eq_refl). discriminate.
        -- apply (Hnp j fj pj Hj').
    + rewrite successes_app, Hsucc0, Nat.add_0_r. intros Hone.
      destruct (J3 Hone) as (Henv & Hinvs).
      split; [exact Henv |]. rewrite invocations_app, Hinvs, Hinv0. reflexivity.
    + intros v' Hv'. destruct (Hval v' Hv') as [Hold | ->]; [apply (J4 v' Hold) |].
      apply (Hemp v'). reflexivity.
Qed.

Lemma run_schedule_preserves_same fn (w0 w1 : W) (v : T) (sched : list nat) :
  fn w0 = (Returned v, w1) ->
  forall owner cfg,
    Threads.invariant owner cfg ->
    Threads.same_initializer fn w0 w1 v cfg ->
    exists owner' cfg',
      Threads.run_schedule sched cfg = Some cfg'
      /\ Threads.invariant owner' cfg'
      /\ Threads.same_initializer fn w0 w1 v cfg'.
Proof.
  intros Hfn. induction sched as [| i sched IH]; intros owner cfg Hinv Hsame.
  - exists owner, cfg. auto.
  - destruct (schedule_preserves i owner cfg Hinv) as (o1 & cfg1 & Hstep & Hinv1 & _).
    pose proof (schedule_preserves_same fn w0 w1 v i owner cfg cfg1 Hfn Hinv Hsame Hstep)
      as Hsame1.
    destruct (IH o1 cfg1 Hinv1 Hsame1) as (o2 & cfg2 & Hrun & Hinv2 & Hsame2).
    exists o2, cfg2. simpl. rewrite Hstep. auto.
Qed.

Lemma same_initializer_start fn (w0 w1 : W) (v : T) (n : nat) :
  Threads.same_initializer fn w0 w1 v (Threads.start OnceCell.ctor w0 (repeat fn n)).
Proof.
  assert (Hall : forall i fn' pc,
             nth_error (Threads.threads (Threads.start (@OnceCell.ctor T) w0 (repeat fn n))) i
             = Some (Threads.InGetOrInit fn' pc) ->
             fn' = fn /\ pc = Threads.FastCheck).
  { intros i fn' pc Hi. unfold Threads.start in Hi. simpl in Hi.
    apply nth_error_In, in_map_iff in Hi as (f & [= <- <-] & Hin).
    apply repeat_spec in Hin. auto. }
  unfold Threads.same_initializer. split; [| split; [| split]].
  - intros i fn' pc Hi. destruct (Hall i fn' pc Hi) as [-> ->].
    split; [reflexivity |]. split; [reflexivity | discriminate].
  - intros _. split; [reflexivity |]. split; [reflexivity |]. split; [discriminate |].
    intros i fn' pc Hi. destruct (Hall i fn' pc Hi) as [_ ->]. reflexivity.
  - cbn. discriminate.
  - cbn. discriminate.
Qed.

End SameInitializerFacts.

(** X13.  [test_once_cell_multi_thread] and [test_lazy_multithreaded], for
    any number of threads and any scheduling: when all threads pass the same
    initializer to [get_or_init] on a fresh cell and that initializer
    returns [v] in the starting environment, no thread ever throws, every
    thread that has returned has returned [v], and the initializer has run
    either not at all yet or exactly once; as soon as one thread has
    returned it has run exactly once, the environment is what that one
    invocation left, and the slot holds [v]. *)
Theorem racing_threads_observe_one_initialization :
  forall (W E T : Type) (fn : @InitFn W E T) (w0 w1 : W) (v : T) (n : nat)
         (sched : list nat),
    fn w0 = (Returned v, w1) ->
    exists cfg,
      Threads.run_schedule sched (Threads.start OnceCell.ctor w0 (repeat fn n)) = Some cfg
      /\ (forall i th r,
            nth_error (Threads.threads cfg) i = Some th ->
            Threads.result th = Some r ->
            r = Returned v
            /\ Threads.env cfg = w1
            /\ invocations (Threads.trace cfg) = [Invoked true]
            /\ OnceCell.value_ (Threads.cell cfg) = Some v)
      /\ (Threads.env cfg = w0 /\ invocations (Threads.trace cfg) = []
          \/ Threads.env cfg = w1 /\ invocations (Threads.trace cfg) = [Invoked true]).
Proof.
  intros W E T fn w0 w1 v n sched Hfn.
  destruct (run_schedule_preserves_same fn w0 w1 v sched Hfn None _
              (invariant_start OnceCell.ctor w0 (repeat fn n) quiescent_ctor)
              (same_initializer_start fn w0 w1 v n))
    as (owner & cfg & Hrun & (_ & _ & Hths & _ & Hle & _) & (J1 & J2 & J3 & J4)).
  exists cfg. split; [exact Hrun |]. split.
  - intros i th r Hi Hr.
    destruct (Hths i th Hi) as (fi & pi & -> & Hok & _).
    destruct pi as [| | | | | | | | | | | | r']; simpl in Hr; try discriminate.
    injection Hr as ->.
    destruct (J1 i fi _ Hi) as (_ & Hnt & _).
    destruct r as [v' | e]; [| discriminate].
    simpl in Hok. destruct Hok as [Hs Hv].
    assert (Hone : successes (Threads.trace cfg) = 1).
    { destruct (successes (Threads.trace cfg)) as [| [| m]] eqn:Hn; [| reflexivity | lia].
      destruct (J2 eq_refl) as (_ & _ & Hns & _). contradiction. }
    destruct (J3 Hone) as (Henv & Hinvs).
    assert (v' = v) by (apply J4; exact Hv). subst v'. auto.
  - destruct (successes (Threads.trace cfg)) as [| [| m]] eqn:Hn; [| | lia].
    + left. destruct (J2 eq_refl) as (Henv & Hnone & _). auto.
    + right. apply (J3 eq_refl).
Qed.

(** Three threads whose initializer counts its runs and returns 99, with
    the second thread winning the lock. *)
Lemma racing_threads_observe_one_initialization_witness :
  let fn : @InitFn Z unit Z := fun count => (Returned 99%Z, (count + 1)%Z) in
  exists cfg,
    Threads.run_schedule
      [0; 1; 2; 1; 0; 1; 1; 1; 2; 1; 1; 1; 1; 0; 0; 0; 0; 2; 2; 2; 2]
      (Threads.start OnceCell.ctor 0%Z (repeat fn 3)) = Some cfg
    /\ Threads.threads cfg
       = [Threads.InGetOrInit fn (Threads.Done (Returned 99%Z));
          Threads.InGetOrInit fn (Threads.Done (Returned 99%Z));
          Threads.InGetOrInit fn (Threads.Done (Returned 99%Z))]
    /\ Threads.env cfg = 1%Z
    /\ invocations (Threads.trace cfg) = [Invoked true].
Proof.
  intros fn.
  destruct (racing_threads_observe_one_initialization
              Z unit Z fn 0%Z 1%Z 99%Z 3
              [0; 1; 2; 1; 0; 1; 1; 1; 2; 1; 1; 1; 1; 0; 0; 0; 0; 2; 2; 2; 2] eq_refl)
    as (cfg & Hrun & Hres & _).
  exists cfg. split; [exact Hrun |].
  assert (Hths : Threads.threads cfg
                 = [Threads.InGetOrInit fn (Threads.Done (Returned 99%Z));
                    Threads.InGetOrInit fn (Threads.Done (Returned 99%Z));
                    Threads.InGetOrInit fn (Threads.Done (Returned 99%Z))]).
  { cbv in Hrun. injection Hrun as <-. reflexivity. }
  split; [exact Hths |].
  destruct (Hres 0 (Threads.InGetOrInit fn (Threads.Done (Returned 99%Z))) (Returned 99%Z))
    as (_ & Henv & Hinv & _).
  - rewrite Hths. reflexivity.
  - reflexivity.
  - auto.
Defined.

(** ** One thread alone, and [reset] in a race *)

(** X14.  A thread that runs alone goes through [get_or_init] step by step
    to exactly what the function-level [get_or_init] computes in one go:
    the same returned value or exception, the same cell, the same
    environment and the same trace, within nine steps.  Where the function
    is undefined the thread either makes the undefined step (it dereferences
    the empty slot) or waits for ever for a mutex that is held.  Likewise a
    lone thread in [reset] ends, within four steps, as [reset] does. *)
Theorem lone_thread_refines_get_or_init :
  forall (W E T : Type) (fn : @InitFn W E T) (c : OnceCell.t T) (w : W),
    match OnceCell.get_or_init fn c w with
    | Ok v c' w' tr =>
        Threads.run_schedule (repeat 0 9) (Threads.start c w [fn])
        = Some (Threads.mkConfig c' w'
                  [Threads.InGetOrInit fn (Threads.Done (Returned v))] tr)
    | Throw e c' w' tr =>
        Threads.run_schedule (repeat 0 9) (Threads.start c w [fn])
        = Some (Threads.mkConfig c' w'
                  [Threads.InGetOrInit fn (Threads.Done (Thrown e))] tr)
    | Undefined =>
        Threads.run_schedule (repeat 0 9) (Threads.start c w [fn]) = None
        \/ OnceCell.mtx_ c = true
           /\ Threads.run_schedule (repeat 0 9) (Threads.start c w [fn])
              = Some (Threads.mkConfig c w [Threads.InGetOrInit fn Threads.Lock] [])
    end
    /\ match @OnceCell.reset W E T c w with
       | Ok _ c' w' tr =>
           Threads.run_schedule (repeat 0 4)
             (@Threads.mkConfig W E T c w [Threads.InReset Threads.ResetLock] [])
           = Some (Threads.mkConfig c' w' [Threads.InReset Threads.ResetDone] tr)
       | Throw _ _ _ _ => False
       | Undefined =>
           OnceCell.mtx_ c = true
           /\ Threads.run_schedule (repeat 0 4)
                (@Threads.mkConfig W E T c w [Threads.InReset Threads.ResetLock] [])
              = Some (@Threads.mkConfig W E T c w [Threads.InReset Threads.ResetLock] [])
       end.
Proof.
  intros W E T fn [slot s m] w. split.
  - destruct (State_eqb s Initialized) eqn:Hb.
    + apply State_eqb_eq in Hb. subst s.
      rewrite get_or_init_fast_path by reflexivity. cbn [OnceCell.value_].
      destruct slot as [v |]; [reflexivity | left; reflexivity].
    + destruct m.
      * assert (Hu : OnceCell.get_or_init fn (OnceCell.mk slot s true) w = Undefined).
        { exec_unfold. simpl. rewrite Hb. reflexivity. }
        rewrite Hu. right. split; [reflexivity |].
        destruct s; try discriminate; reflexivity.
      * apply State_eqb_neq in Hb.
        rewrite (get_or_init_slow_path fn (OnceCell.mk slot s false) w eq_refl Hb).
        unfold Threads.start. cbn [map repeat Threads.run_schedule].
        destruct s; try congruence;
          destruct (fn w) as [[v | e] w'] eqn:Hfn; cbv; rewrite Hfn; reflexivity.
  - destruct m.
    + split; reflexivity.
    + reflexivity.
Qed.

(** X15.  The only step that is undefined is a [return *value_] of
    [get_or_init] on an empty slot.  [reset()] in a race makes it happen: on
    an initialized cell, a thread that has passed the first test of the flag
    and is then overtaken by a thread in [reset()] that has emptied the slot
    (the flag still says [Initialized]) dereferences the empty slot.
    (Without [reset()], X10 excludes this.) *)
Theorem reset_in_a_race_empties_the_slot_under_a_reader :
  forall (W E T : Type),
    (forall (cfg : Threads.Config W E T) (i : nat),
        Threads.schedule i cfg = None <->
        exists fn pc,
          nth_error (Threads.threads cfg) i = Some (Threads.InGetOrInit fn pc)
          /\ (pc = Threads.FastReturn \/ pc = Threads.SlowReturn
              \/ pc = Threads.ReturnValue)
          /\ OnceCell.value_ (Threads.cell cfg) = None)
    /\ (forall (fn : @InitFn W E T) (v : T) (w : W),
        let racing :=
          Threads.mkConfig (OnceCell.mk (Some v) Initialized false) w
            [Threads.InGetOrInit fn Threads.FastCheck;
             Threads.InReset Threads.ResetLock] [] in
        Threads.run_schedule [0; 1; 1] racing
        = Some (Threads.mkConfig (OnceCell.mk None Initialized true) w
                  [Threads.InGetOrInit fn Threads.FastReturn;
                   Threads.InReset Threads.ResetStore]
                  [Wrote (OnceCell.mk (Some v) Initialized true);
                   Wrote (OnceCell.mk None Initialized true)])
        /\ Threads.run_schedule [0; 1; 1; 0] racing = None).
Proof.
  intros W E T. split; [| intros fn v w racing; split; reflexivity].
  intros [c w ths tr] i. unfold Threads.schedule. cbn [Threads.threads Threads.cell Threads.env].
  destruct (nth_error ths i) as [[fn pc | rpc] |] eqn:Hth.
  - cbn [Threads.step].
    assert (Hderef :
      forall next handler,
        Threads.atomically OnceCell.deref_value next handler c w
        = match OnceCell.value_ c with
          | Some v => Threads.Stepped (next v) c w []
          | None => @Threads.Crashed W E T
          end).
    { intros next handler. unfold Threads.atomically, OnceCell.deref_value, bind, read.
      destruct (OnceCell.value_ c); reflexivity. }
    destruct pc as [| | | | | | | v | | | e | r | r];
      cbn [Threads.step_get_or_init]; rewrite ?Hderef.
    all: try (destruct (OnceCell.value_ c) as [v0 |] eqn:Hv;
              [ split; [discriminate | intros (f & p & [= <- <-] & _ & [=])]
              | split; [intros _; exists fn; eexists; split; [reflexivity |]; auto
                       | reflexivity] ]).
    all: split; [| intros (f & p & [= <- <-] & [[=] | [[=] | [=]]] & _)].
    + unfold Threads.atomically, OnceCell.load_state, read. discriminate.
    + unfold Threads.atomically, OnceCell.lock, bind, read, write, undefined.
      destruct (OnceCell.mtx_ c); discriminate.
    + unfold Threads.atomically, OnceCell.load_state, read. discriminate.
    + unfold Threads.atomically, OnceCell.store_state, write. discriminate.
    + unfold Threads.atomically, invoke. destruct (fn w) as [[v | e] w']; discriminate.
    + unfold Threads.atomically, OnceCell.emplace, write. discriminate.
    + unfold Threads.atomically, OnceCell.store_state, write. discriminate.
    + unfold Threads.atomically, OnceCell.store_state, write. discriminate.
    + unfold Threads.atomically, OnceCell.unlock, write. discriminate.
    + discriminate.
  - split; [| intros (f & p & [=] & _)].
    cbn [Threads.step]. destruct rpc; cbn [Threads.step_reset];
      unfold Threads.atomically, OnceCell.lock, OnceCell.reset_value,
        OnceCell.store_state, OnceCell.unlock, bind, read, write, undefined;
      try destruct (OnceCell.mtx_ c); discriminate.
  - split; [discriminate | intros (f & p & [=] & _)].
Qed.

(** X16.  While the initializer runs, the cell is in the state written just
    before its invocation: flag [Initializing], mutex held.  In that state
    a nested [get_or_init] or [reset] on the same cell, from the same
    thread, is undefined (it locks the mutex it already holds), whereas
    [is_initialized()], [get()] and [try_get()] are harmless and report that
    there is no value.  The same holds for [call] and [reset] on a
    [OnceCall]. *)
Theorem initializer_must_not_reenter :
  (forall (W E T : Type) (c : OnceCell.t T) (fn : @InitFn W E T) (w : W),
      OnceCell.mtx_ c = false ->
      OnceCell.state_ c <> Initialized ->
      let during := OnceCell.mk (OnceCell.value_ c) Initializing true in
      (exists pre b post,
          Caller.events (OnceCell.get_or_init fn c w)
          = pre ++ Wrote during :: Invoked b :: post)
      /\ forall (g : @InitFn W E T) (w' : W),
          OnceCell.get_or_init g during w' = Undefined
          /\ @OnceCell.reset W E T during w' = Undefined
          /\ @OnceCell.is_initialized W E T during w' = Ok false during w' []
          /\ @OnceCell.get W E T during w' = Ok nullptr during w' []
          /\ @OnceCell.try_get W E T during w' = Ok nullptr during w' [])
  /\ (forall (W E : Type) (o : OnceCall.t) (fn : @InitFn W E unit) (w : W),
      OnceCall.mtx_ o = false ->
      OnceCall.state_ o <> Initialized ->
      let during := OnceCall.mk Initializing true in
      (exists pre b post,
          Caller.events (OnceCall.call fn o w)
          = pre ++ Wrote during :: Invoked b :: post)
      /\ forall (g : @InitFn W E unit) (w' : W),
          OnceCall.call g during w' = Undefined
          /\ @OnceCall.reset W E during w' = Undefined
          /\ @OnceCall.is_initialized W E during w' = Ok false during w' []).
Proof.
  split.
  - intros W E T c fn w Hm Hs during. split.
    + rewrite (get_or_init_slow_path fn c w Hm Hs).
      destruct (fn w) as [[v | e] w1]; cbn [Caller.events].
      * exists [Wrote (OnceCell.mk (OnceCell.value_ c) (OnceCell.state_ c) true)], true.
        eexists. reflexivity.
      * exists [Wrote (OnceCell.mk (OnceCell.value_ c) (OnceCell.state_ c) true)], false.
        eexists. reflexivity.
    + intros g w'. repeat split.
  - intros W E o fn w Hm Hs during. split.
    + rewrite (call_slow_path fn o w Hm Hs).
      destruct (fn w) as [[u | e] w1]; cbn [Caller.events].
      * exists [Wrote (OnceCall.mk (OnceCall.state_ o) true)], true.
        eexists. reflexivity.
      * exists [Wrote (OnceCall.mk (OnceCall.state_ o) true)], false.
        eexists. reflexivity.
    + intros g w'. repeat split.
Qed.

(** The cell of [test_once_cell_single_thread] while [[] { return 42; }]
    runs. *)
Lemma initializer_must_not_reenter_witness :
  let fn : @InitFn unit unit Z := fun w => (Returned 42%Z, w) in
  let during : OnceCell.t Z := OnceCell.mk None Initializing true in
  OnceCell.mtx_ (@OnceCell.ctor Z) = false
  /\ OnceCell.state_ (@OnceCell.ctor Z) <> Initialized
  /\ (exists pre b post,
        Caller.events (OnceCell.get_or_init fn OnceCell.ctor tt)
        = pre ++ Wrote during :: Invoked b :: post)
  /\ OnceCell.get_or_init fn during tt = Undefined.
Proof.
  intros fn during.
  assert (Hs : OnceCell.state_ (@OnceCell.ctor Z) <> Initialized) by discriminate.
  split; [reflexivity |]. split; [exact Hs |].
  destruct initializer_must_not_reenter as [Hcell _].
  destruct (Hcell unit unit Z OnceCell.ctor fn tt eq_refl Hs) as [Htrace Hnested].
  split; [exact Htrace |]. apply (Hnested fn tt).
Defined.

(** X17.  In a race of threads in [get_or_init], once the flag reads
    [Initialized] the slot holds a value, and flag and value stay what they
    are however the race goes on; so a lock-free reader that has seen
    [Initialized] can use the value at any later time: [get()], [try_get()]
    and [operator*] on the shared cell give that one value ever after. *)
Theorem published_value_is_stable :
  forall (W E T : Type) (c : OnceCell.t T) (w : W) (fns : list (@InitFn W E T))
         (sched later : list nat),
    OnceCell.quiescent c ->
    exists cfg cfg',
      Threads.run_schedule sched (Threads.start c w fns) = Some cfg
      /\ Threads.run_schedule (sched ++ later) (Threads.start c w fns) = Some cfg'
      /\ (OnceCell.state_ (Threads.cell cfg) = Initialized ->
          exists v,
            OnceCell.value_ (Threads.cell cfg) = Some v
            /\ OnceCell.state_ (Threads.cell cfg') = Initialized
            /\ OnceCell.value_ (Threads.cell cfg') = Some v
            /\ forall w' : W,
                @OnceCell.get W E T (Threads.cell cfg') w'
                = Ok (address_of v) (Threads.cell cfg') w' []
                /\ @OnceCell.try_get W E T (Threads.cell cfg') w'
                   = Ok (address_of v) (Threads.cell cfg') w' []
                /\ @OnceCell.operator_star W E T (Threads.cell cfg') w'
                   = Ok v (Threads.cell cfg') w' []).
Proof.
  intros W E T c w fns sched later Hq.
  destruct (run_schedule_preserves sched None _ (invariant_start c w fns Hq))
    as (owner & cfg & Hrun & Hinv & _).
  destruct (run_schedule_preserves later owner cfg Hinv)
    as (owner' & cfg' & Hrun' & _ & _ & _ & Hkeep).
  exists cfg, cfg'. split; [exact Hrun |].
  split; [rewrite run_schedule_app, Hrun; exact Hrun' |].
  intros Hs. destruct Hinv as (_ & Hfull & _).
  destruct (OnceCell.value_ (Threads.cell cfg)) as [v |] eqn:Hv;
    [| exfalso; apply (Hfull Hs); reflexivity].
  destruct (Hkeep Hs) as [Hs' Hv'].
  exists v. split; [reflexivity |]. split; [exact Hs' |]. split; [exact Hv' |].
  intros w'.
  pose proof (@get_spec W E T (Threads.cell cfg') w') as Hget.
  rewrite Hs', Hv' in Hget. cbn [State_eqb] in Hget.
  split; [exact Hget |]. split; [exact Hget |].
  unfold OnceCell.operator_star, OnceCell.deref_value, bind, read. rewrite Hv'.
  reflexivity.
Qed.

(** Two threads: after the first has published 1, the second runs to the
    end and still finds 1. *)
Lemma published_value_is_stable_witness :
  let a : @InitFn nat unit Z := fun n => (Returned 1%Z, S n) in
  let b : @InitFn nat unit Z := fun n => (Returned 2%Z, S n) in
  OnceCell.quiescent (@OnceCell.ctor Z)
  /\ exists cfg cfg',
      Threads.run_schedule (repeat 0 9) (Threads.start OnceCell.ctor 0 [a; b]) = Some cfg
      /\ Threads.run_schedule (repeat 0 9 ++ repeat 1 9) (Threads.start OnceCell.ctor 0 [a; b])
         = Some cfg'
      /\ OnceCell.state_ (Threads.cell cfg) = Initialized
      /\ OnceCell.value_ (Threads.cell cfg') = Some 1%Z.
Proof.
  intros a b. split; [apply quiescent_ctor |].
  destruct (published_value_is_stable
              nat unit Z OnceCell.ctor 0 [a; b] (repeat 0 9) (repeat 1 9) quiescent_ctor)
    as (cfg & cfg' & Hrun & Hrun' & Hstable).
  exists cfg, cfg'. split; [exact Hrun |]. split; [exact Hrun' |].
  assert (Hs : OnceCell.state_ (Threads.cell cfg) = Initialized).
  { cbv in Hrun. injection Hrun as <-. reflexivity. }
  split; [exact Hs |].
  destruct (Hstable Hs) as (v & Hv & _ & Hv' & _).
  assert (v = 1%Z) as ->.
  { cbv in Hrun. injection Hrun as <-. cbv in Hv. injection Hv as <-. reflexivity. }
  exact Hv'.
Defined.
